(** * Bootstrap of the manifest repository (pkg/repository/manifest/repo.go)

    A shallow embedding of [Init], the four constructors [NewRoot],
    [NewIndex], [NewSnapshot], [NewTimestamp] and the three mutators
    [SetVersions], [SetSnapshot], [SetRole], followed by the properties of
    the bootstrap protocol.

    Conventions of the embedding.
    - A Go [map[string]V] is an [option (gmap string V)]: [None] is the nil
      map, [Some m] an allocated one.  The methods test for nil explicitly,
      so the distinction is kept.
    - Go's [uint] is [N]; the code never does arithmetic on it.
    - A method with a pointer receiver that mutates the receiver is a
      function returning the receiver's new value.
    - Go does not fix the order in which [range] visits a map.  The order is
      an oracle [range] of which only one thing is known: it enumerates the
      entries of the map, each once.  Every theorem holds for all oracles.
      The oracle stands for the order of one loop: Go draws the order anew
      at each loop, so a statement about two loops over one map takes an
      oracle for each (see [with_range]).
    - [Init] is split in two: [Init_manifests] is the function up to its
      last line and [Init] adds the call of [batchSaveManifests], so that
      the set of manifests the function builds can be spoken of.
    - What the file calls but does not define (the registry [types], the
      kind constants, [time], [encoding/json], [batchSaveManifests]) is a
      field of the class [World]. *)

From stdpp Require Import base option strings gmap list fin_maps pretty sorting.

Definition error : Type := string.
Definition uint : Type := N.
Definition Duration : Type := Z.
Definition bytes : Type := list Byte.byte.

(** Go map values: nil or allocated. *)
Definition gomap (V : Type) : Type := option (gmap string V).

(** [make(map[string]V)] *)
Definition make {V : Type} : gomap V := Some ∅.

(** The entries a map holds; a nil map reads as empty. *)
Definition entries {V : Type} (m : gomap V) : gmap string V := default ∅ m.

(** Outcome of a function that returns an error or dies on a failed type
    assertion. *)
Inductive outcome (A : Type) : Type :=
  | Done (a : A)
  | Fail (err : error)
  | Panic.
Arguments Done {A} a.
Arguments Fail {A} err.
Arguments Panic {A}.

(** [time.RFC3339] *)
Definition RFC3339 : string := "2006-01-02T15:04:05Z07:00".

(** Modelled from the spec: the registry entry of a manifest kind,
    [{filename, expire, threshold}]; the struct is declared outside this
    file, the three fields are the ones repo.go reads. *)
Record ty : Type := { filename : string; expire : Duration; threshold : uint }.

(** The zero value a Go map yields for a key it does not hold. *)
Definition ty_zero : ty := {| filename := ""; expire := 0%Z; threshold := 0%N |}.

Record SignedBase : Type := {
  Ty : string;
  SpecVersion : string;
  Expires : string;
  Version : uint
}.

Record FileVersion : Type := { FileVersion_Version : uint }.

Record FileHash : Type := { Hashes : gomap string; Length : uint }.

Record Snapshot : Type := {
  Snapshot_SignedBase : SignedBase;
  Snapshot_Meta : gomap FileVersion
}.

Record Timestamp : Type := {
  Timestamp_SignedBase : SignedBase;
  Timestamp_Meta : gomap FileHash
}.

(** Payload types that repo.go only names. *)
Class Payloads : Type := {
  KeyInfo : Type;
  Owner : Type;
  Component : Type
}.

Section Structs.
Context `{Payloads}.

Record Role : Type := {
  URL : string;
  Threshold : uint;
  Keys : gomap KeyInfo
}.

Record Root : Type := {
  Root_SignedBase : SignedBase;
  Roles : gomap Role
}.

Record Index : Type := {
  Index_SignedBase : SignedBase;
  Owners : gomap Owner;
  Components : gomap Component;
  DefaultComponents : option (list string)
}.

(** The interface [ValidManifest], closed over the four payloads that
    repo.go builds. *)
Inductive ValidManifest : Type :=
  | MRoot (r : Root)
  | MIndex (i : Index)
  | MSnapshot (s : Snapshot)
  | MTimestamp (t : Timestamp).

End Structs.

(** What repo.go uses and does not define. *)
Class World `{Payloads} : Type := {
  (** kind constants and the protocol version *)
  ManifestTypeRoot : string;
  ManifestTypeIndex : string;
  ManifestTypeSnapshot : string;
  ManifestTypeTimestamp : string;
  CurrentSpecVersion : string;
  (** the registry [types] *)
  types : gmap string ty;
  (** package time: [t.Add(d)] and [t.Format(layout)] *)
  Time : Type;
  Time_Add : Time → Duration → Time;
  Time_Format : Time → string → string;
  (** [json.Marshal] at a [*Snapshot] *)
  json_Marshal : Snapshot → bytes + error;
  (** the order in which a [range] loop visits a map *)
  range : ∀ V : Type, gmap string V → list (string * V);
  (** the file system and [batchSaveManifests] *)
  FS : Type;
  batchSaveManifests :
    string → gmap string ValidManifest → FS → FS * option error
}.
Arguments range {_ _ V} _.

Section Manifest.
Context `{World}.

(** [types[k]] *)
Definition types_at (k : string) : ty := default ty_zero (types !! k).

(** [m.Base()] *)
Definition Base (m : ValidManifest) : SignedBase :=
  match m with
  | MRoot r => Root_SignedBase r
  | MIndex i => Index_SignedBase i
  | MSnapshot s => Snapshot_SignedBase s
  | MTimestamp t => Timestamp_SignedBase t
  end.

(** Modelled from the spec: the method [Filename] of [SignedBase], declared
    outside this
    file; the spec has canonical filenames registry-defined, the filename of
    a manifest being the registry filename of its kind. *)
Definition SignedBase_Filename (s : SignedBase) : string :=
  filename (types_at (Ty s)).

(** Modelled from the spec: [m.Filename()] of the interface, which every
    payload gets from its embedded [SignedBase]. *)
Definition Filename (m : ValidManifest) : string :=
  SignedBase_Filename (Base m).

Definition NewRoot (initTime : Time) : Root :=
  {| Root_SignedBase :=
       {| Ty := ManifestTypeRoot;
          SpecVersion := CurrentSpecVersion;
          Expires :=
            Time_Format
              (Time_Add initTime (expire (types_at ManifestTypeRoot))) RFC3339;
          Version := 1%N |};
     Roles := make |}.

Definition NewIndex (initTime : Time) : Index :=
  {| Index_SignedBase :=
       {| Ty := ManifestTypeIndex;
          SpecVersion := CurrentSpecVersion;
          Expires :=
            Time_Format
              (Time_Add initTime (expire (types_at ManifestTypeIndex))) RFC3339;
          Version := 1%N |};
     Owners := make;
     Components := make;
     DefaultComponents := Some [] |}.

Definition NewSnapshot (initTime : Time) : Snapshot :=
  {| Snapshot_SignedBase :=
       {| Ty := ManifestTypeSnapshot;
          SpecVersion := CurrentSpecVersion;
          Expires :=
            Time_Format
              (Time_Add initTime (expire (types_at ManifestTypeSnapshot)))
              RFC3339;
          Version := 0%N |};
     Snapshot_Meta := None |}.

Definition NewTimestamp (initTime : Time) : Timestamp :=
  {| Timestamp_SignedBase :=
       {| Ty := ManifestTypeTimestamp;
          SpecVersion := CurrentSpecVersion;
          Expires :=
            Time_Format
              (Time_Add initTime (expire (types_at ManifestTypeTimestamp)))
              RFC3339;
          Version := 1%N |};
     Timestamp_Meta := None |}.

(** One turn of the loop of [SetVersions]: [Meta[m.Filename()] = ...]. *)
Definition SetVersions_step
    (Meta : gmap string FileVersion) (kv : string * ValidManifest)
    : gmap string FileVersion :=
  <[Filename kv.2 := {| FileVersion_Version := Version (Base kv.2) |}]> Meta.

Definition SetVersions
    (manifest : Snapshot) (manifestList : gmap string ValidManifest)
    : Snapshot :=
  let Meta :=
    match Snapshot_Meta manifest with
    | None => ∅
    | Some Meta => Meta
    end in
  {| Snapshot_SignedBase := Snapshot_SignedBase manifest;
     Snapshot_Meta := Some (foldl SetVersions_step Meta (range manifestList)) |}.

Definition SetSnapshot (manifest : Timestamp) (s : Snapshot)
    : Timestamp * option error :=
  match json_Marshal s with
  | inr err => (manifest, Some err)
  | inl bytes =>
      let Meta :=
        match Timestamp_Meta manifest with
        | None => ∅
        | Some Meta => Meta
        end in
      ({| Timestamp_SignedBase := Timestamp_SignedBase manifest;
          Timestamp_Meta :=
            Some (<[SignedBase_Filename (Base (MSnapshot s)) :=
                      {| Hashes := Some {["sha256" := "TODO"]};
                         Length := N.of_nat (length bytes) |}]> Meta) |},
       None)
  end.

Definition SetRole (manifest : Root) (m : ValidManifest) : Root :=
  let Roles0 :=
    match Roles manifest with
    | None => ∅
    | Some Roles0 => Roles0
    end in
  {| Root_SignedBase := Root_SignedBase manifest;
     Roles :=
       Some (<[Ty (Base m) :=
                 {| URL := "/" +:+ Filename m;
                    Threshold := threshold (types_at (Ty (Base m)));
                    Keys := make |}]> Roles0) |}.

(** [fmt.Errorf("manifest '%s' not initialized porperly", ty)] *)
Definition not_initialized (k : string) : error :=
  "manifest '" +:+ k +:+ "' not initialized porperly".

(** The loop [for ty, val := range types] of [Init], over the registry
    entries still to visit.  the type assertion on
    [manifests[ManifestTypeRoot]] panics unless the entry is there and is a
    root. *)
Fixpoint Init_roles
    (todo : list (string * ty)) (manifests : gmap string ValidManifest)
    : outcome (gmap string ValidManifest) :=
  match todo with
  | [] => Done manifests
  | (k, val) :: todo =>
      if decide (filename val = "") then Init_roles todo manifests
      else
        match manifests !! k with
        | Some m =>
            match manifests !! ManifestTypeRoot with
            | Some (MRoot root) =>
                Init_roles todo
                  (<[ManifestTypeRoot := MRoot (SetRole root m)]> manifests)
            | _ => Panic
            end
        | None => Fail (not_initialized k)
        end
  end.

(** [Init] up to its last line: the manifest set handed to
    [batchSaveManifests], or the error returned before. *)
Definition Init_manifests (initTime : Time)
    : outcome (gmap string ValidManifest) :=
  let manifests : gmap string ValidManifest := ∅ in
  let manifests := <[ManifestTypeRoot := MRoot (NewRoot initTime)]> manifests in
  let manifests :=
    <[ManifestTypeIndex := MIndex (NewIndex initTime)]> manifests in
  let manifests :=
    <[ManifestTypeSnapshot :=
        MSnapshot (SetVersions (NewSnapshot initTime) manifests)]> manifests in
  match manifests !! ManifestTypeSnapshot with
  | Some (MSnapshot s) =>
      match SetSnapshot (NewTimestamp initTime) s with
      | (_, Some err) => Fail err
      | (timestamp, None) =>
          let manifests :=
            <[ManifestTypeTimestamp := MTimestamp timestamp]> manifests in
          Init_roles (range types) manifests
      end
  | _ => Panic
  end.

(** [Init]: the file system after the call and what the call returns
    ([Done tt] is the nil error). *)
Definition Init (dst : string) (initTime : Time) (fs : FS)
    : FS * outcome unit :=
  match Init_manifests initTime with
  | Done manifests =>
      match batchSaveManifests dst manifests fs with
      | (fs', None) => (fs', Done tt)
      | (fs', Some err) => (fs', Fail err)
      end
  | Fail err => (fs, Fail err)
  | Panic => (fs, Panic)
  end.

(** ** Vocabulary of the statements *)

(** The four kinds [Init] builds a manifest for. *)
Definition core_kinds : list string :=
  [ManifestTypeRoot; ManifestTypeIndex; ManifestTypeSnapshot;
   ManifestTypeTimestamp].

(** A kind the registry gives a file to and [Init] builds nothing for. *)
Definition registry_gap (k : string) : Prop :=
  ∃ val, types !! k = Some val ∧ filename val ≠ "" ∧ k ∉ core_kinds.

(** Kind [k] has an entry with a filename among the entries [todo]. *)
Definition wanted (todo : list (string * ty)) (k : string) : Prop :=
  ∃ val, (k, val) ∈ todo ∧ filename val ≠ "".

(** Every entry of the set carries the kind it is stored under. *)
Definition keyed_by_kind (manifests : gmap string ValidManifest) : Prop :=
  ∀ k m, manifests !! k = Some m → Ty (Base m) = k.

(** The role [SetRole] installs for kind [k]. *)
Definition role_for (k : string) : Role :=
  {| URL := "/" +:+ filename (types_at k);
     Threshold := threshold (types_at k);
     Keys := make |}.

(** The snapshot [Init] hands to [SetSnapshot]: built over the set that
    holds the root and the index. *)
Definition Init_snapshot (initTime : Time) : Snapshot :=
  SetVersions (NewSnapshot initTime)
    (<[ManifestTypeIndex := MIndex (NewIndex initTime)]>
       (<[ManifestTypeRoot := MRoot (NewRoot initTime)]> ∅)).

(** The timestamp [Init] stores when the snapshot serializes to [b]. *)
Definition Init_timestamp (initTime : Time) (b : bytes) : Timestamp :=
  {| Timestamp_SignedBase := Timestamp_SignedBase (NewTimestamp initTime);
     Timestamp_Meta :=
       Some {[ SignedBase_Filename (Snapshot_SignedBase (Init_snapshot initTime)) :=
                 {| Hashes := Some {["sha256" := "TODO"]};
                    Length := N.of_nat (length b) |} ]} |}.

(** The set [Init] enters its loop with. *)
Definition Init_set (initTime : Time) (timestamp : Timestamp)
    : gmap string ValidManifest :=
  <[ManifestTypeTimestamp := MTimestamp timestamp]>
    (<[ManifestTypeSnapshot := MSnapshot (Init_snapshot initTime)]>
       (<[ManifestTypeIndex := MIndex (NewIndex initTime)]>
          (<[ManifestTypeRoot := MRoot (NewRoot initTime)]> ∅))).

(** The ledger entry of manifest [m]. *)
Definition version_of (m : ValidManifest) : FileVersion :=
  {| FileVersion_Version := Version (Base m) |}.

(** Full replacement, in the words of the specification of [SetVersions]:
    afterwards the ledger holds the entries of the manifests of the list
    and nothing else. *)
Definition replaces_ledger
    (manifest : Snapshot) (manifestList : gmap string ValidManifest) : Prop :=
  ∀ f fv,
    entries (Snapshot_Meta (SetVersions manifest manifestList)) !! f = Some fv ↔
    ∃ k m, manifestList !! k = Some m ∧ Filename m = f ∧ fv = version_of m.

(** The self-inclusive ledger, in the words of the specification of the
    bootstrap: one entry per manifest of the final set, the snapshot's own
    among them. *)
Definition ledger_covers_all (initTime : Time) : Prop :=
  ∀ manifests, Init_manifests initTime = Done manifests →
    ∃ s, manifests !! ManifestTypeSnapshot = Some (MSnapshot s) ∧
      ∀ k m, manifests !! k = Some m →
        entries (Snapshot_Meta s) !! Filename m = Some (version_of m).

(** Content sensitivity, in the words of the specification of
    [SetSnapshot]: snapshots that serialize differently get different
    recorded hashes. *)
Definition digest_tells_apart (t : Timestamp) (s1 s2 : Snapshot) : Prop :=
  ∀ t1 t2 h1 h2,
    SetSnapshot t s1 = (t1, None) → SetSnapshot t s2 = (t2, None) →
    json_Marshal s1 ≠ json_Marshal s2 →
    entries (Timestamp_Meta t1) !! SignedBase_Filename (Snapshot_SignedBase s1)
      = Some h1 →
    entries (Timestamp_Meta t2) !! SignedBase_Filename (Snapshot_SignedBase s2)
      = Some h2 →
    Hashes h1 ≠ Hashes h2.

End Manifest.

(** * A concrete world

    The registry of the four core kinds plus the placeholder kind, whole
    seconds for instants, and a JSON encoder for snapshots.  It serves to
    run the code on concrete inputs. *)
Module Sample.

Definition payloads : Payloads :=
  {| KeyInfo := string; Owner := string; Component := string |}.

Definition day : Duration := 86400%Z.

Definition registry : gmap string ty :=
  Eval cbv beta in
  let y := (365 * day)%Z in
  {[ "root" := {| filename := "root.json"; expire := y; threshold := 1%N |};
     "index" := {| filename := "index.json"; expire := y; threshold := 1%N |};
     "component" := {| filename := ""; expire := (5 * y)%Z; threshold := 1%N |};
     "snapshot" := {| filename := "snapshot.json"; expire := day; threshold := 1%N |};
     "timestamp" := {| filename := "timestamp.json"; expire := day; threshold := 1%N |} ]}.

(** Two decimal digits, four decimal digits. *)
Definition digit (n : Z) : string :=
  String (Ascii.ascii_of_N (48 + Z.to_N (n `mod` 10))) "".
Definition dec2 (n : Z) : string := digit (n `div` 10) +:+ digit n.
Definition dec4 (n : Z) : string := dec2 (n `div` 100) +:+ dec2 n.

(** Year, month and day of the civil date [z] days after 1970-01-01. *)
Definition civil (z : Z) : Z * Z * Z :=
  let z := (z + 719468)%Z in
  let era := (z `div` 146097)%Z in
  let doe := (z - era * 146097)%Z in
  let yoe :=
    ((doe - doe `div` 1460 + doe `div` 36524 - doe `div` 146096) `div` 365)%Z in
  let doy := (doe - (365 * yoe + yoe `div` 4 - yoe `div` 100))%Z in
  let mp := ((5 * doy + 2) `div` 153)%Z in
  let d := (doy - (153 * mp + 2) `div` 5 + 1)%Z in
  let m := (if bool_decide (mp < 10)%Z then mp + 3 else mp - 9)%Z in
  let y := (yoe + era * 400 + (if bool_decide (m ≤ 2)%Z then 1 else 0))%Z in
  (y, m, d).

(** An instant is a number of seconds since 1970-01-01T00:00:00Z, printed
    in UTC whatever the layout. *)
Definition format (t : Z) (layout : string) : string :=
  let '(y, m, d) := civil (t `div` 86400) in
  let s := (t `mod` 86400)%Z in
  dec4 y +:+ "-" +:+ dec2 m +:+ "-" +:+ dec2 d +:+ "T" +:+
  dec2 (s `div` 3600) +:+ ":" +:+ dec2 ((s `div` 60) `mod` 60) +:+ ":" +:+
  dec2 (s `mod` 60) +:+ "Z".

(** Characters a JSON string carries as they are. *)
Definition plain (c : Ascii.ascii) : bool :=
  let n := Ascii.N_of_ascii c in
  bool_decide (32 ≤ n < 127)%N && negb (bool_decide (n = 34)%N)
  && negb (bool_decide (n = 92)%N) && negb (bool_decide (n = 60)%N)
  && negb (bool_decide (n = 62)%N) && negb (bool_decide (n = 38)%N).

Definition quote (s : string) : option string :=
  if forallb plain (String.list_ascii_of_string s)
  then Some (String.append (String (Ascii.ascii_of_N 34) s)
                           (String (Ascii.ascii_of_N 34) ""))
  else None.

Definition json_number (n : N) : string := pretty n.

(** Members of an object, joined by commas. *)
Definition join (l : list string) : string :=
  match l with
  | [] => ""
  | x :: l => foldl (λ acc y, acc +:+ "," +:+ y) x l
  end.

Definition key_le (a b : string * FileVersion) : Prop :=
  String.leb a.1 b.1 = true.

#[local] Instance key_le_dec a b : Decision (key_le a b).
Proof. unfold key_le. apply _. Defined.

Definition json_member (kv : string * FileVersion) : option string :=
  k ← quote kv.1;
  Some (k +:+ ":{" +:+ String.append (default "" (quote "version")) ":"
          +:+ json_number (FileVersion_Version kv.2) +:+ "}").

(** The [meta] object: [null] for a nil map, keys sorted otherwise. *)
Definition json_meta (m : gomap FileVersion) : option string :=
  match m with
  | None => Some "null"
  | Some m =>
      l ← mapM json_member (merge_sort key_le (map_to_list m));
      Some ("{" +:+ join l +:+ "}")
  end.

Definition field (name : string) (value : string) : string :=
  default "" (quote name) +:+ ":" +:+ value.

(** A snapshot as [encoding/json] prints it, when none of its strings needs
    an escape; an encoder error otherwise. *)
Definition marshal (s : Snapshot) : bytes + error :=
  let b := Snapshot_SignedBase s in
  match quote (Ty b), quote (SpecVersion b), quote (Expires b),
        json_meta (Snapshot_Meta s) with
  | Some t, Some v, Some e, Some m =>
      inl (String.list_byte_of_string
             ("{" +:+ join [field "_type" t; field "spec_version" v;
                            field "expires" e;
                            field "version" (json_number (Version b));
                            field "meta" m] +:+ "}"))
  | _, _, _, _ => inr "json: unsupported value"
  end.

(** Files written so far, by path. *)
Definition disk : Type := gmap string (@ValidManifest payloads).

(** Every manifest of the set goes to [dst/filename]. *)
Definition save (dst : string) (ms : gmap string (@ValidManifest payloads))
    (fs : disk) : disk * option error :=
  (map_fold
     (λ _ m fs,
        <[dst +:+ "/" +:+
          filename (default ty_zero (registry !! Ty (@Base payloads m))) := m]>
          fs)
     fs ms, None).

Definition world : @World payloads :=
  {| ManifestTypeRoot := "root";
     ManifestTypeIndex := "index";
     ManifestTypeSnapshot := "snapshot";
     ManifestTypeTimestamp := "timestamp";
     CurrentSpecVersion := "0.1.0";
     types := registry;
     Time := Z;
     Time_Add := Z.add;
     Time_Format := format;
     json_Marshal := marshal;
     range := λ V, map_to_list;
     FS := disk;
     batchSaveManifests := save |}.

(** The same world with a sixth kind in the registry, which has a file and
    which [Init] knows nothing of. *)
Definition world_gapped : @World payloads :=
  {| ManifestTypeRoot := "root";
     ManifestTypeIndex := "index";
     ManifestTypeSnapshot := "snapshot";
     ManifestTypeTimestamp := "timestamp";
     CurrentSpecVersion := "0.1.0";
     types :=
       <["mirror" := {| filename := "mirror.json"; expire := day;
                        threshold := 1%N |}]> registry;
     Time := Z;
     Time_Add := Z.add;
     Time_Format := format;
     json_Marshal := marshal;
     range := λ V, map_to_list;
     FS := disk;
     batchSaveManifests := save |}.

#[local] Existing Instance payloads.
#[local] Existing Instance world.

Definition epoch : Time := 0%Z.

(** The set a bootstrap at [epoch] hands over, and its members. *)
Definition bootstrapped : gmap string ValidManifest :=
  match Init_manifests epoch with
  | Done manifests => manifests
  | _ => ∅
  end.

Definition snapshot0 : Snapshot :=
  match bootstrapped !! "snapshot" with
  | Some (MSnapshot s) => s
  | _ => NewSnapshot epoch
  end.

Definition timestamp0 : Timestamp :=
  match bootstrapped !! "timestamp" with
  | Some (MTimestamp t) => t
  | _ => NewTimestamp epoch
  end.

(** The index at version 2, and the snapshot rebuilt over the set that
    holds it. *)
Definition index_bumped : Index :=
  let i := NewIndex epoch in
  {| Index_SignedBase :=
       {| Ty := Ty (Index_SignedBase i);
          SpecVersion := SpecVersion (Index_SignedBase i);
          Expires := Expires (Index_SignedBase i);
          Version := 2%N |};
     Owners := Owners i;
     Components := Components i;
     DefaultComponents := DefaultComponents i |}.

Definition rebuilt : gmap string ValidManifest :=
  <["index" := MIndex index_bumped]> bootstrapped.

Definition snapshot1 : Snapshot := SetVersions snapshot0 rebuilt.

(** A snapshot whose ledger holds an entry of a file no longer there. *)
Definition stale : Snapshot :=
  {| Snapshot_SignedBase := Snapshot_SignedBase (NewSnapshot epoch);
     Snapshot_Meta :=
       Some {[ "stale.json" := {| FileVersion_Version := 7%N |} ]} |}.

Definition only_root : gmap string ValidManifest :=
  {[ "root" := MRoot (NewRoot epoch) ]}.

(** A snapshot the encoder refuses. *)
Definition unprintable : Snapshot :=
  {| Snapshot_SignedBase :=
       {| Ty := "snapshot"; SpecVersion := "<dev>";
          Expires := format epoch RFC3339; Version := 0%N |};
     Snapshot_Meta := None |}.

(** A root whose role for the index has a key. *)
Definition keyed_root : Root :=
  {| Root_SignedBase := Root_SignedBase (NewRoot epoch);
     Roles :=
       Some {[ "index" :=
                 {| URL := "/index.json"; Threshold := 1%N;
                    Keys := Some {[ "key-1" := "ed25519" ]} |} ]} |}.

End Sample.

(** * Orders of visit

    The world [with_range r] is the world at hand with [r] for the order in
    which a [range] loop visits a map: the means to compare two runs of one
    function that differ in nothing but that order. *)
Section Orders.
Context `{World}.

Definition with_range
    (r : ∀ V : Type, gmap string V → list (string * V)) : World :=
  {| ManifestTypeRoot := ManifestTypeRoot;
     ManifestTypeIndex := ManifestTypeIndex;
     ManifestTypeSnapshot := ManifestTypeSnapshot;
     ManifestTypeTimestamp := ManifestTypeTimestamp;
     CurrentSpecVersion := CurrentSpecVersion;
     types := types;
     Time := Time;
     Time_Add := Time_Add;
     Time_Format := Time_Format;
     json_Marshal := json_Marshal;
     range := r;
     FS := FS;
     batchSaveManifests := batchSaveManifests |}.


(** [r] visits the entries of every map, each once. *)
Definition visits_all
    (r : ∀ V : Type, gmap string V → list (string * V)) : Prop :=
  ∀ (V : Type) (m : gmap string V), r V m ≡ₚ map_to_list m.

(** The order opposite to that of [map_to_list]. *)
Definition backwards (V : Type) (m : gmap string V) : list (string * V) :=
  reverse (map_to_list m).

End Orders.

(** * The client of the TiCDC open API (pkg/cluster/api/cdcapi.go)

    The client builds the addresses it calls and searches the captures the
    servers report. What reaches the network ([utils.HTTPClient],
    [utils.Retry], [tryURLs]) is declared outside the file and is a field of
    the class [Transport]; a call takes the state of the network and returns
    the state it leaves. [GetAllCaptures] wraps a request in [utils.Retry]
    and is taken as a whole: the functions that search its result are
    embedded over whatever it returns. The context of a client is taken to
    carry a logger, so that logging leaves the results alone. *)

Record Capture : Type := {
  Capture_ID : string;
  Capture_IsOwner : bool;
  Capture_AdvertiseAddr : string
}.

(** [Liveness], an [int32]. *)
Definition Liveness : Type := Z.
Definition LivenessCaptureAlive : Liveness := 0%Z.
Definition LivenessCaptureStopping : Liveness := 1%Z.

Record ServerStatus : Type := {
  ServerStatus_Version : string;
  ServerStatus_GitHash : string;
  ServerStatus_ID : string;
  ServerStatus_Pid : Z;
  ServerStatus_IsOwner : bool;
  ServerStatus_Liveness : Liveness
}.

(** [var response ServerStatus] *)
Definition ServerStatus_zero : ServerStatus :=
  {| ServerStatus_Version := ""; ServerStatus_GitHash := "";
     ServerStatus_ID := ""; ServerStatus_Pid := 0%Z;
     ServerStatus_IsOwner := false;
     ServerStatus_Liveness := 0%Z |}.

(** [http.StatusNotFound] *)
Definition StatusNotFound : Z := 404%Z.

(** Types the file only names. *)
Class Wire : Type := {
  context_Context : Type;
  tls_Config : Type;
  HTTPClient : Type;
  (** the network and the servers behind it *)
  Net : Type
}.

Section Client.
Context `{Wire}.

Record CDCOpenAPIClient : Type := {
  urls : list string;
  client : HTTPClient;
  ctx : context_Context
}.

End Client.

Class Transport `{Wire} : Type := {
  NewHTTPClient : Duration → option tls_Config → HTTPClient;
  (** the method [Get] of the HTTP client: the body and the error *)
  HTTPClient_Get :
    HTTPClient → context_Context → string → Net → Net * (bytes * option error);
  (** the method [PostWithStatusCode] of the HTTP client, called with a
      nil body: the body, the status code and the error *)
  HTTPClient_PostWithStatusCode :
    HTTPClient → context_Context → string → Net →
    Net * (bytes * Z * option error);
  (** [json.Unmarshal] into a [ServerStatus] *)
  json_Unmarshal_ServerStatus :
    bytes → ServerStatus → ServerStatus * option error;
  (** [tryURLs], of another file of the package *)
  tryURLs :
    list string → (string → Net → Net * (bytes * option error)) → Net →
    Net * (bytes * option error);
  (** [GetAllCaptures]: the captures, any of which may be nil, and the
      error *)
  GetAllCaptures :
    CDCOpenAPIClient → Net → Net * (list (option Capture) * option error)
}.

Section CDCAPI.
Context `{Transport}.

(** The loop of [NewCDCOpenAPIClient]. *)
Definition NewCDCOpenAPIClient_urls
    (httpPrefix : string) (addresses : list string) : list string :=
  foldl (λ urls addr, urls ++ [httpPrefix +:+ "://" +:+ addr]) [] addresses.

Definition NewCDCOpenAPIClient
    (ctx : context_Context) (addresses : list string) (timeout : Duration)
    (tlsConfig : option tls_Config) : CDCOpenAPIClient :=
  let httpPrefix :=
    match tlsConfig with
    | Some _ => "https"
    | None => "http"
    end in
  {| urls := NewCDCOpenAPIClient_urls httpPrefix addresses;
     client := NewHTTPClient timeout tlsConfig;
     ctx := ctx |}.

Definition getEndpoints (c : CDCOpenAPIClient) (api : string) : list string :=
  foldl (λ endpoints url, endpoints ++ [url +:+ "/" +:+ api]) [] (urls c).

(** The loop of [GetOwner]; [Fail err] stands for the pair of a nil capture
    and [err], [Panic] for the field access through a nil capture. *)
Fixpoint GetOwner_loop (captures : list (option Capture)) : outcome Capture :=
  match captures with
  | [] => Fail "owner not found"
  | None :: _ => Panic
  | Some capture :: captures =>
      if Capture_IsOwner capture then Done capture else GetOwner_loop captures
  end.

Definition GetOwner (c : CDCOpenAPIClient) (net : Net) : Net * outcome Capture :=
  let '(net, (captures, err)) := GetAllCaptures c net in
  match err with
  | Some err => (net, Fail err)
  | None => (net, GetOwner_loop captures)
  end.

Fixpoint GetCaptureByAddr_loop
    (addr : string) (captures : list (option Capture)) : outcome Capture :=
  match captures with
  | [] => Fail ("capture not found, addr: " +:+ addr)
  | None :: _ => Panic
  | Some capture :: captures =>
      if decide (Capture_AdvertiseAddr capture = addr) then Done capture
      else GetCaptureByAddr_loop addr captures
  end.

Definition GetCaptureByAddr (c : CDCOpenAPIClient) (addr : string) (net : Net)
    : Net * outcome Capture :=
  let '(net, (captures, err)) := GetAllCaptures c net in
  match err with
  | Some err => (net, Fail err)
  | None => (net, GetCaptureByAddr_loop addr captures)
  end.

(** The function [ResignOwner] hands to [tryURLs]. *)
Definition ResignOwner_request (c : CDCOpenAPIClient) (endpoint : string)
    (net : Net) : Net * (bytes * option error) :=
  let '(net, (body, statusCode, err)) :=
    HTTPClient_PostWithStatusCode (client c) (ctx c) endpoint net in
  match err with
  | Some err =>
      if decide (statusCode = StatusNotFound) then (net, (body, None))
      else (net, (body, Some err))
  | None => (net, (body, None))
  end.

(** [ResignOwner]: [Done tt] is the nil error. After a failed [GetOwner]
    the capture is nil and [owner.IsOwner] panics. *)
Definition ResignOwner (c : CDCOpenAPIClient) (net : Net) : Net * outcome unit :=
  let api := "api/v1/owner/resign" in
  let endpoints := getEndpoints c api in
  let '(net, (_, err)) := tryURLs endpoints (ResignOwner_request c) net in
  match err with
  | Some err => (net, Fail err)
  | None =>
      let '(net, owner) := GetOwner c net in
      match owner with
      | Done owner => (net, Done tt)
      | Fail err => (net, Panic)
      | Panic => (net, Panic)
      end
  end.

(** [getCDCServerStatus]: the liveness and the error it returns, or the
    panic of [endpoints[0]] on an empty slice. *)
Definition getCDCServerStatus (c : CDCOpenAPIClient) (net : Net)
    : Net * outcome (Liveness * option error) :=
  let api := "api/v1/status" in
  let endpoints := getEndpoints c api in
  let response := ServerStatus_zero in
  match endpoints with
  | [] => (net, Panic)
  | endpoint :: _ =>
      let '(net, (data, err)) := HTTPClient_Get (client c) (ctx c) endpoint net in
      match err with
      | Some err => (net, Done (ServerStatus_Liveness response, Some err))
      | None =>
          let '(response, err) := json_Unmarshal_ServerStatus data response in
          match err with
          | Some err => (net, Done (ServerStatus_Liveness response, Some err))
          | None => (net, Done (ServerStatus_Liveness response, None))
          end
      end
  end.

End CDCAPI.

(** * More concrete inputs *)
Module Sample2.
Import Sample.
#[local] Existing Instance payloads.
#[local] Existing Instance world.

(** The world of [Sample] with a protocol version the encoder refuses. *)
Definition world_unprintable : @World payloads :=
  {| ManifestTypeRoot := "root";
     ManifestTypeIndex := "index";
     ManifestTypeSnapshot := "snapshot";
     ManifestTypeTimestamp := "timestamp";
     CurrentSpecVersion := "<dev>";
     types := registry;
     Time := Z;
     Time_Add := Z.add;
     Time_Format := format;
     json_Marshal := marshal;
     range := λ V, map_to_list;
     FS := disk;
     batchSaveManifests := save |}.

(** The world of [Sample] with two more kinds in the registry, each with a
    file and neither known to [Init]. *)
Definition world_two_gaps : @World payloads :=
  {| ManifestTypeRoot := "root";
     ManifestTypeIndex := "index";
     ManifestTypeSnapshot := "snapshot";
     ManifestTypeTimestamp := "timestamp";
     CurrentSpecVersion := "0.1.0";
     types :=
       <["mirror" := {| filename := "mirror.json"; expire := day;
                        threshold := 1%N |}]>
         (<["attic" := {| filename := "attic.json"; expire := day;
                          threshold := 1%N |}]> registry);
     Time := Z;
     Time_Add := Z.add;
     Time_Format := format;
     json_Marshal := marshal;
     range := λ V, map_to_list;
     FS := disk;
     batchSaveManifests := save |}.

(** The set [SetVersions] runs over in [Init]. *)
Definition root_and_index : gmap string ValidManifest :=
  <["index" := MIndex (NewIndex epoch)]> {["root" := MRoot (NewRoot epoch)]}.

(** Servers that answer each request for the captures with the next item
    of a script, accept every POST and refuse every GET. *)
Definition wire : Wire :=
  {| context_Context := unit;
     tls_Config := unit;
     HTTPClient := unit;
     Net := list (list (option Capture) + error) |}.

Definition answer (c : @CDCOpenAPIClient wire) (net : @Net wire)
    : @Net wire * (list (option Capture) * option error) :=
  match net with
  | [] => ([], ([], Some "no answer"))
  | inl captures :: net => (net, (captures, None))
  | inr err :: net => (net, ([], Some err))
  end.

(** Each endpoint in turn until one request succeeds. *)
Fixpoint try_each (endpoints : list string)
    (f : string → @Net wire → @Net wire * (bytes * option error))
    (net : @Net wire) : @Net wire * (bytes * option error) :=
  match endpoints with
  | [] => (net, ([], Some "no endpoint available"))
  | endpoint :: endpoints =>
      match f endpoint net with
      | (net, (body, None)) => (net, (body, None))
      | (net, (body, Some err)) =>
          match endpoints with
          | [] => (net, (body, Some err))
          | _ => try_each endpoints f net
          end
      end
  end.

Definition transport : @Transport wire :=
  {| NewHTTPClient := λ _ _, (tt : @HTTPClient wire);
     HTTPClient_Get := λ _ _ _ net, (net, ([], Some "connection refused"));
     HTTPClient_PostWithStatusCode := λ _ _ _ net, (net, ([], 200%Z, None));
     json_Unmarshal_ServerStatus := λ _ response, (response, None);
     tryURLs := try_each;
     GetAllCaptures := answer |}.

Definition capture_a : Capture :=
  {| Capture_ID := "a"; Capture_IsOwner := false;
     Capture_AdvertiseAddr := "10.0.0.1:8300" |}.
Definition capture_b : Capture :=
  {| Capture_ID := "b"; Capture_IsOwner := true;
     Capture_AdvertiseAddr := "10.0.0.2:8300" |}.
Definition capture_c : Capture :=
  {| Capture_ID := "c"; Capture_IsOwner := true;
     Capture_AdvertiseAddr := "10.0.0.3:8300" |}.

Definition cdc_client : @CDCOpenAPIClient wire :=
  @NewCDCOpenAPIClient wire transport (tt : @context_Context wire)
    ["10.0.0.1:8300"; "10.0.0.2:8300"] 5%Z None.

End Sample2.

(** * Properties *)

Section Properties.
Context `{World}.

(** A [range] loop visits the entries of the map, each once. *)
Hypothesis range_perm :
  ∀ (V : Type) (m : gmap string V), range m ≡ₚ map_to_list m.

(** The four kind constants are four different strings. *)
Hypothesis kinds_distinct : NoDup core_kinds.

Lemma elem_of_range {V : Type} (m : gmap string V) (k : string) (v : V) :
  (k, v) ∈ range m ↔ m !! k = Some v.
Proof using range_perm. rewrite (range_perm V m). apply elem_of_map_to_list. Qed.

(** ** The loop of [SetVersions] *)

Lemma SetVersions_loop_miss (l : list (string * ValidManifest)) :
  ∀ (Meta : gmap string FileVersion) (f : string),
    (∀ kv, kv ∈ l → Filename kv.2 ≠ f) →
    foldl SetVersions_step Meta l !! f = Meta !! f.
Proof.
  induction l as [|kv l IH]; intros Meta f Hf; simpl; [done|].
  rewrite IH; [|intros kv' ?; apply Hf; by right].
  unfold SetVersions_step. apply lookup_insert_ne, Hf. by left.
Qed.

Lemma SetVersions_loop_hit (l : list (string * ValidManifest)) :
  ∀ (Meta : gmap string FileVersion) (kv : string * ValidManifest),
    kv ∈ l →
    ∃ kv', kv' ∈ l ∧ Filename kv'.2 = Filename kv.2 ∧
      foldl SetVersions_step Meta l !! Filename kv.2 = Some (version_of kv'.2).
Proof.
  induction l as [|kv0 l IH]; intros Meta kv Hin; [by apply elem_of_nil in Hin|].
  simpl.
  destruct (decide (Exists (λ kv', Filename kv'.2 = Filename kv.2) l))
    as [(kv1 & Hin1 & Heq1)%Exists_exists|Hno].
  - destruct (IH (SetVersions_step Meta kv0) kv1 Hin1) as (kv' & ? & E & L).
    exists kv'. split; [by right|]. split; [congruence|]. by rewrite <- Heq1.
  - assert (kv = kv0) as ->.
    { apply elem_of_cons in Hin as [->|Hin]; [done|].
      destruct Hno. apply Exists_exists. eauto. }
    exists kv0. split; [by left|]. split; [done|].
    rewrite SetVersions_loop_miss.
    + unfold SetVersions_step. apply lookup_insert_eq.
    + intros kv' Hin' E. apply Hno, Exists_exists. eauto.
Qed.

Lemma SetVersions_Meta (manifest : Snapshot)
    (manifestList : gmap string ValidManifest) :
  Snapshot_Meta (SetVersions manifest manifestList) =
    Some (foldl SetVersions_step (entries (Snapshot_Meta manifest))
            (range manifestList)).
Proof. unfold SetVersions, entries. by destruct (Snapshot_Meta manifest). Qed.

Lemma SetVersions_miss manifest (manifestList : gmap string ValidManifest) f :
  (∀ k m, manifestList !! k = Some m → Filename m ≠ f) →
  entries (Snapshot_Meta (SetVersions manifest manifestList)) !! f =
    entries (Snapshot_Meta manifest) !! f.
Proof using range_perm.
  intros Hf. rewrite SetVersions_Meta. simpl.
  apply SetVersions_loop_miss. intros [k m] Hin. simpl.
  apply (Hf k). by apply elem_of_range.
Qed.

Lemma SetVersions_hit manifest (manifestList : gmap string ValidManifest) k m :
  manifestList !! k = Some m →
  ∃ k' m', manifestList !! k' = Some m' ∧ Filename m' = Filename m ∧
    entries (Snapshot_Meta (SetVersions manifest manifestList)) !! Filename m =
      Some (version_of m').
Proof using range_perm.
  intros Hk. rewrite SetVersions_Meta. simpl.
  destruct (SetVersions_loop_hit (range manifestList)
              (entries (Snapshot_Meta manifest)) (k, m))
    as ([k' m'] & Hin & E & L); [by apply elem_of_range|].
  exists k', m'. split; [by apply elem_of_range|]. done.
Qed.

(** ** [SetRole] *)

Lemma SetRole_Roles (manifest : Root) (m : ValidManifest) :
  Roles (SetRole manifest m) =
    Some (<[Ty (Base m) := role_for (Ty (Base m))]> (entries (Roles manifest))).
Proof. unfold SetRole, entries. by destruct (Roles manifest). Qed.

Lemma SetRole_Base (manifest : Root) (m : ValidManifest) :
  Root_SignedBase (SetRole manifest m) = Root_SignedBase manifest.
Proof. done. Qed.

(** ** The loop of [Init] *)

#[local] Instance wanted_dec todo k : Decision (wanted todo k).
Proof.
  refine (cast_if
    (decide (Exists (λ kv : string * ty, kv.1 = k ∧ filename kv.2 ≠ "") todo)));
    unfold wanted; rewrite Exists_exists in *.
  - destruct e as ([k' val] & Hin & <- & Hf). eauto.
  - intros (val & Hin & Hf). apply n. exists (k, val). eauto.
Defined.

Lemma wanted_skip k0 val0 todo k :
  filename val0 = "" → wanted ((k0, val0) :: todo) k ↔ wanted todo k.
Proof.
  intros E. split.
  - intros (val & [[= -> ->]|Hin]%elem_of_cons & Hf); [done|by exists val].
  - intros (val & Hin & Hf). exists val. split; [by right|done].
Qed.

Lemma wanted_cons k0 val0 todo k :
  filename val0 ≠ "" → wanted ((k0, val0) :: todo) k ↔ k = k0 ∨ wanted todo k.
Proof.
  intros E. split.
  - intros (val & [[= -> ->]|Hin]%elem_of_cons & Hf); [by left|].
    right. by exists val.
  - intros [->|(val & Hin & Hf)].
    + exists val0. split; [by left|done].
    + exists val. split; [by right|done].
Qed.

Lemma keyed_by_kind_root manifests root root' :
  keyed_by_kind manifests →
  manifests !! ManifestTypeRoot = Some (MRoot root) →
  Root_SignedBase root' = Root_SignedBase root →
  keyed_by_kind (<[ManifestTypeRoot := MRoot root']> manifests).
Proof.
  intros Hk Hr Hb k m. rewrite lookup_insert. case_decide as E.
  - intros [= <-]. simpl. rewrite Hb, <- E. apply (Hk _ _ Hr).
  - apply Hk.
Qed.

(** The loop either stops at a wanted kind the set lacks, or runs to its
    end and leaves the set as it was but for the roles of the root: one for
    each wanted kind. It never panics. *)
Lemma Init_roles_run (todo : list (string * ty)) :
  ∀ (manifests : gmap string ValidManifest) (root : Root),
    manifests !! ManifestTypeRoot = Some (MRoot root) →
    keyed_by_kind manifests →
    (∃ k, wanted todo k ∧ manifests !! k = None ∧
          Init_roles todo manifests = Fail (not_initialized k))
    ∨
    (∃ root',
       Init_roles todo manifests =
         Done (<[ManifestTypeRoot := MRoot root']> manifests) ∧
       Root_SignedBase root' = Root_SignedBase root ∧
       (∀ k, wanted todo k → is_Some (manifests !! k)) ∧
       (∀ k, wanted todo k → entries (Roles root') !! k = Some (role_for k)) ∧
       (∀ k, ¬ wanted todo k →
             entries (Roles root') !! k = entries (Roles root) !! k)).
Proof.
  induction todo as [|[k0 val0] todo IH]; intros manifests root Hroot Hkeyed.
  - right. exists root. simpl. rewrite insert_id by done.
    split; [done|]. split; [done|].
    assert (∀ k, ¬ wanted [] k) as Hnone.
    { intros k (val & Hin & _). by apply elem_of_nil in Hin. }
    split; [intros k Hw; by destruct (Hnone k)|].
    split; [intros k Hw; by destruct (Hnone k)|done].
  - simpl. case_decide as Hfile.
    + destruct (IH manifests root Hroot Hkeyed)
        as [(k & Hw & Hk & E)|(root' & E & Hb & Hall & Hin & Hout)].
      * left. exists k. by rewrite wanted_skip.
      * right. exists root'. split; [done|]. split; [done|].
        split; [|split]; intros k; rewrite wanted_skip by done; eauto.
    + destruct (manifests !! k0) as [m|] eqn:Hk0.
      2:{ left. exists k0. rewrite wanted_cons by done. eauto. }
      rewrite Hroot.
      assert (Ty (Base m) = k0) as Hty by by apply Hkeyed.
      destruct (IH (<[ManifestTypeRoot := MRoot (SetRole root m)]> manifests)
                  (SetRole root m))
        as [(k & Hw & Hk & E)|(root' & E & Hb & Hall & Hin & Hout)].
      { apply lookup_insert_eq. }
      { by eapply keyed_by_kind_root. }
      * left. exists k. rewrite wanted_cons by done.
        split; [by right|]. split; [|done].
        rewrite lookup_insert in Hk. by case_decide.
      * right. exists root'. rewrite insert_insert_eq in E.
        split; [done|]. split; [done|].
        split; [|split]; intros k; rewrite wanted_cons by done.
        -- intros [->|Hw]; [eauto|].
           destruct (Hall k Hw) as [x Hx]. rewrite lookup_insert in Hx.
           case_decide; subst; eauto.
        -- intros Hw. destruct (decide (wanted todo k)) as [Hw'|Hw'].
           ++ apply Hin, Hw'.
           ++ destruct Hw as [->|Hw]; [|by destruct Hw'].
              rewrite Hout by done. rewrite SetRole_Roles. simpl.
              rewrite Hty. apply lookup_insert_eq.
        -- intros Hw. rewrite Hout by tauto. rewrite SetRole_Roles. simpl.
           rewrite Hty. apply lookup_insert_ne. intros ->. tauto.
Qed.

(** ** [Init] up to the loop *)

Lemma kinds_ne :
  ManifestTypeRoot ≠ ManifestTypeIndex ∧
  ManifestTypeRoot ≠ ManifestTypeSnapshot ∧
  ManifestTypeRoot ≠ ManifestTypeTimestamp ∧
  ManifestTypeIndex ≠ ManifestTypeSnapshot ∧
  ManifestTypeIndex ≠ ManifestTypeTimestamp ∧
  ManifestTypeSnapshot ≠ ManifestTypeTimestamp.
Proof using kinds_distinct.
  pose proof kinds_distinct as Hd. unfold core_kinds in Hd.
  rewrite !NoDup_cons, !elem_of_cons, elem_of_nil in Hd.
  repeat split; intros E; rewrite E in Hd; tauto.
Qed.

Lemma Init_manifests_unfold (initTime : Time) :
  Init_manifests initTime =
    match SetSnapshot (NewTimestamp initTime) (Init_snapshot initTime) with
    | (_, Some err) => Fail err
    | (timestamp, None) => Init_roles (range types) (Init_set initTime timestamp)
    end.
Proof. unfold Init_manifests. by rewrite lookup_insert_eq. Qed.

Lemma SetSnapshot_Init (initTime : Time) (b : bytes) :
  json_Marshal (Init_snapshot initTime) = inl b →
  SetSnapshot (NewTimestamp initTime) (Init_snapshot initTime) =
    (Init_timestamp initTime b, None).
Proof. intros E. unfold SetSnapshot. by rewrite E. Qed.

Lemma Init_set_lookup (initTime : Time) (timestamp : Timestamp) (k : string) :
  is_Some (Init_set initTime timestamp !! k) ↔ k ∈ core_kinds.
Proof.
  unfold Init_set, core_kinds. rewrite !lookup_insert_is_Some'.
  rewrite lookup_empty, is_Some_alt, !elem_of_cons, elem_of_nil.
  split; intros; intuition congruence.
Qed.

Lemma Init_set_root (initTime : Time) (timestamp : Timestamp) :
  Init_set initTime timestamp !! ManifestTypeRoot = Some (MRoot (NewRoot initTime)).
Proof using kinds_distinct.
  destruct kinds_ne as (? & ? & ? & _). unfold Init_set.
  rewrite !lookup_insert_ne by done. apply lookup_insert_eq.
Qed.

Lemma Init_set_keyed (initTime : Time) (b : bytes) :
  keyed_by_kind (Init_set initTime (Init_timestamp initTime b)).
Proof.
  intros k m. unfold Init_set.
  rewrite !lookup_insert, lookup_empty.
  repeat case_decide; subst; by intros [= <-].
Qed.

Lemma wanted_range (k : string) :
  wanted (range types) k ↔ ∃ val, types !! k = Some val ∧ filename val ≠ "".
Proof using range_perm.
  unfold wanted. by setoid_rewrite elem_of_range.
Qed.

Lemma types_at_Some (k : string) (val : ty) :
  types !! k = Some val → types_at k = val.
Proof. unfold types_at. by intros ->. Qed.

(** The four entries of the set a successful [Init] hands over. *)
Lemma Init_done_lookups (initTime : Time) (timestamp : Timestamp) (root' : Root) :
  let manifests :=
    <[ManifestTypeRoot := MRoot root']> (Init_set initTime timestamp) in
  manifests !! ManifestTypeRoot = Some (MRoot root') ∧
  manifests !! ManifestTypeIndex = Some (MIndex (NewIndex initTime)) ∧
  manifests !! ManifestTypeSnapshot = Some (MSnapshot (Init_snapshot initTime)) ∧
  manifests !! ManifestTypeTimestamp = Some (MTimestamp timestamp).
Proof using kinds_distinct.
  destruct kinds_ne as (Hri & Hrs & Hrt & His & Hit & Hst).
  unfold Init_set. rewrite !lookup_insert.
  repeat split; repeat case_decide; congruence.
Qed.

(** What [Init] does before it saves: it returns the serialization error
    of the snapshot, or the error of a gap in the registry, or reaches
    [batchSaveManifests] with the set it built, the root holding one role
    for every kind the registry gives a file to. *)
Lemma Init_manifests_cases (initTime : Time) :
  (∃ err, json_Marshal (Init_snapshot initTime) = inr err ∧
          Init_manifests initTime = Fail err)
  ∨
  (∃ b, json_Marshal (Init_snapshot initTime) = inl b ∧
     ((∃ k, registry_gap k ∧
            Init_manifests initTime = Fail (not_initialized k))
      ∨
      (∃ root',
         Init_manifests initTime =
           Done (<[ManifestTypeRoot := MRoot root']>
                   (Init_set initTime (Init_timestamp initTime b))) ∧
         Root_SignedBase root' = Root_SignedBase (NewRoot initTime) ∧
         (∀ k, ¬ registry_gap k) ∧
         (∀ k val, types !! k = Some val → filename val ≠ "" →
                   entries (Roles root') !! k = Some (role_for k)) ∧
         (∀ k, (∀ val, types !! k = Some val → filename val = "") →
               entries (Roles root') !! k = None)))).
Proof using range_perm kinds_distinct.
  rewrite Init_manifests_unfold.
  destruct (json_Marshal (Init_snapshot initTime)) as [b|err] eqn:Hm.
  2:{ left. exists err. split; [done|]. unfold SetSnapshot. by rewrite Hm. }
  right. exists b. split; [done|]. rewrite (SetSnapshot_Init _ b) by done.
  destruct (Init_roles_run (range types)
              (Init_set initTime (Init_timestamp initTime b))
              (NewRoot initTime))
    as [(k & Hw & Hk & E)|(root' & E & Hb & Hall & Hin & Hout)].
  { apply Init_set_root. }
  { apply Init_set_keyed. }
  - left. exists k. split; [|done].
    apply wanted_range in Hw as (val & Ht & Hf). exists val.
    split; [done|]. split; [done|].
    rewrite <- Init_set_lookup, Hk. by intros [? ?].
  - right. exists root'. split; [done|]. split; [done|].
    split; [|split].
    + intros k (val & Ht & Hf & Hk). apply Hk.
      rewrite <- Init_set_lookup. apply Hall, wanted_range. eauto.
    + intros k val Ht Hf. apply Hin, wanted_range. eauto.
    + intros k Hk. rewrite Hout; [done|].
      intros (val & Ht & Hf)%wanted_range. by apply Hf, Hk.
Qed.

(** [Init] never dies on a type assertion. *)
Lemma Init_manifests_no_panic (initTime : Time) :
  Init_manifests initTime ≠ Panic.
Proof using range_perm kinds_distinct.
  destruct (Init_manifests_cases initTime)
    as [(err & _ & ->)|(b & _ & [(k & _ & ->)|(root' & -> & _)])]; discriminate.
Qed.

(** ** The ledger of the snapshot *)

(** C1, as amended. [SetVersions] merges into the ledger it finds: under the
    filename of every manifest of the list the ledger afterwards records
    the version of a manifest of the list with that filename (the
    manifest's own version when the manifests sharing its filename agree on
    the version, so whenever filenames are distinct), and every entry
    of the prior ledger whose key is no filename of the list stays as it
    was. *)
Theorem SetVersions_merges
    (manifest : Snapshot) (manifestList : gmap string ValidManifest) :
  let Meta' := entries (Snapshot_Meta (SetVersions manifest manifestList)) in
  (∀ k m, manifestList !! k = Some m →
     ∃ k' m', manifestList !! k' = Some m' ∧ Filename m' = Filename m ∧
       Meta' !! Filename m = Some (version_of m')) ∧
  (∀ k m, manifestList !! k = Some m →
     (∀ k' m', manifestList !! k' = Some m' → Filename m' = Filename m →
        Version (Base m') = Version (Base m)) →
     Meta' !! Filename m = Some (version_of m)) ∧
  (∀ f, (∀ k m, manifestList !! k = Some m → Filename m ≠ f) →
     Meta' !! f = entries (Snapshot_Meta manifest) !! f).
Proof using range_perm.
  intros Meta'. split; [|split].
  - intros k m Hk. by apply (SetVersions_hit manifest manifestList k m).
  - intros k m Hk Hagree.
    destruct (SetVersions_hit manifest manifestList k m Hk)
      as (k' & m' & Hk' & Hf & L).
    unfold Meta'. rewrite L. unfold version_of.
    by rewrite (Hagree k' m' Hk' Hf).
  - intros f Hf. by apply SetVersions_miss.
Qed.

(** The ledger of the snapshot of [Init]: the filenames of the root and of
    the index, version 1 under each. *)
Lemma Init_snapshot_ledger (initTime : Time) (f : string) (fv : FileVersion) :
  entries (Snapshot_Meta (Init_snapshot initTime)) !! f = Some fv ↔
  (f = Filename (MRoot (NewRoot initTime)) ∨
   f = Filename (MIndex (NewIndex initTime))) ∧
  fv = {| FileVersion_Version := 1%N |}.
Proof using range_perm kinds_distinct.
  destruct kinds_ne as (Hri & _).
  set (two := <[ManifestTypeIndex := MIndex (NewIndex initTime)]>
                (<[ManifestTypeRoot := MRoot (NewRoot initTime)]>
                   (∅ : gmap string ValidManifest))).
  assert (∀ k m, two !! k = Some m →
            (m = MRoot (NewRoot initTime) ∨ m = MIndex (NewIndex initTime)) ∧
            version_of m = {| FileVersion_Version := 1%N |}) as Htwo.
  { intros k m. unfold two. rewrite !lookup_insert, lookup_empty.
    repeat case_decide; intros [= <-]; auto. }
  assert (two !! ManifestTypeRoot = Some (MRoot (NewRoot initTime))) as Hr.
  { unfold two. rewrite lookup_insert_ne by done. apply lookup_insert_eq. }
  assert (two !! ManifestTypeIndex = Some (MIndex (NewIndex initTime))) as Hi.
  { apply lookup_insert_eq. }
  assert (∀ k m, two !! k = Some m →
            entries (Snapshot_Meta (Init_snapshot initTime)) !! Filename m =
              Some {| FileVersion_Version := 1%N |}) as Hhit.
  { intros k m Hk.
    destruct (SetVersions_hit (NewSnapshot initTime) two k m Hk)
      as (k' & m' & Hk' & _ & L).
    unfold Init_snapshot. fold two. rewrite L.
    by destruct (Htwo k' m' Hk') as [_ ->]. }
  split.
  - intros L.
    destruct (decide (f = Filename (MRoot (NewRoot initTime)))) as [->|Nr].
    { rewrite (Hhit _ _ Hr) in L. injection L as <-. auto. }
    destruct (decide (f = Filename (MIndex (NewIndex initTime)))) as [->|Ni].
    { rewrite (Hhit _ _ Hi) in L. injection L as <-. auto. }
    unfold Init_snapshot in L. fold two in L.
    rewrite SetVersions_miss in L; [done|].
    intros k m Hk. by destruct (Htwo k m Hk) as [[-> | ->] _].
  - intros [[-> | ->] ->]; eauto.
Qed.

(** C2, as amended. After a successful bootstrap the ledger of the snapshot
    holds exactly the entries of the manifests that were in the set when
    [SetVersions] ran, the root and the index, each under its filename with
    the manifest's own version; the snapshot has an entry under its own
    filename only if it shares that filename with one of the two. *)
Theorem Init_ledger
    (initTime : Time) (manifests : gmap string ValidManifest) :
  Init_manifests initTime = Done manifests →
  ∃ s, manifests !! ManifestTypeSnapshot = Some (MSnapshot s) ∧
    (∀ f fv,
       entries (Snapshot_Meta s) !! f = Some fv ↔
       ∃ k m, (k = ManifestTypeRoot ∨ k = ManifestTypeIndex) ∧
              manifests !! k = Some m ∧ Filename m = f ∧ fv = version_of m) ∧
    ((∀ k m, k = ManifestTypeRoot ∨ k = ManifestTypeIndex →
             manifests !! k = Some m → Filename m ≠ Filename (MSnapshot s)) →
     entries (Snapshot_Meta s) !! Filename (MSnapshot s) = None).
Proof using range_perm kinds_distinct.
  intros HD.
  destruct kinds_ne as (Hri & Hrs & Hrt & His & Hit & Hst).
  destruct (Init_manifests_cases initTime)
    as [(err & _ & E)|(b & _ & [(k & _ & E)|(root' & E & Hb & _)])];
    rewrite E in HD; try discriminate.
  injection HD as <-.
  assert (∀ k m, k = ManifestTypeRoot ∨ k = ManifestTypeIndex →
      <[ManifestTypeRoot := MRoot root']>
        (Init_set initTime (Init_timestamp initTime b)) !! k = Some m →
      (Filename m = Filename (MRoot (NewRoot initTime)) ∨
       Filename m = Filename (MIndex (NewIndex initTime))) ∧
      version_of m = {| FileVersion_Version := 1%N |}) as Hcore.
  { intros k m [-> | ->].
    - rewrite lookup_insert_eq. intros [= <-].
      unfold Filename, version_of. simpl. rewrite Hb. auto.
    - unfold Init_set. rewrite !lookup_insert_ne by done.
      rewrite lookup_insert_eq. intros [= <-]. auto. }
  assert (∀ f fv,
      entries (Snapshot_Meta (Init_snapshot initTime)) !! f = Some fv ↔
      ∃ k m, (k = ManifestTypeRoot ∨ k = ManifestTypeIndex) ∧
        <[ManifestTypeRoot := MRoot root']>
          (Init_set initTime (Init_timestamp initTime b)) !! k = Some m ∧
        Filename m = f ∧ fv = version_of m) as Hiff.
  { intros f fv. rewrite Init_snapshot_ledger. split.
    - intros [[-> | ->] ->].
      + exists ManifestTypeRoot, (MRoot root'). split; [auto|].
        rewrite lookup_insert_eq. split; [done|].
        unfold Filename, version_of. simpl. by rewrite Hb.
      + exists ManifestTypeIndex, (MIndex (NewIndex initTime)). split; [auto|].
        unfold Init_set. rewrite !lookup_insert_ne by done.
        by rewrite lookup_insert_eq.
    - intros (k & m & Hk & L & <- & ->).
      destruct (Hcore k m Hk L) as [Hf ->]. by destruct Hf as [-> | ->]; auto. }
  exists (Init_snapshot initTime). split; [|split; [done|]].
  - unfold Init_set. rewrite !lookup_insert_ne by done. apply lookup_insert_eq.
  - intros Hother.
    destruct (entries (Snapshot_Meta (Init_snapshot initTime))
                !! Filename (MSnapshot (Init_snapshot initTime)))
      as [fv|] eqn:L; [|done].
    apply Hiff in L as (k & m & Hk & L & Hf & _).
    by destruct (Hother k m Hk L).
Qed.

(** ** Gaps in the registry *)


(** ** The roles of the root *)

(** C4. After a successful bootstrap the root holds, for every kind the
    registry gives a filename to, the role made of ["/"] followed by that
    filename, of the threshold of the registry and of an empty key set, and
    holds no role for any other kind. Kinds without a filename are no
    obstacle: the bootstrap succeeds as soon as the snapshot serializes and
    every kind with a filename is one of the four that [Init] builds. *)
Theorem Init_root_roles (initTime : Time) :
  (∀ manifests, Init_manifests initTime = Done manifests →
     ∃ root, manifests !! ManifestTypeRoot = Some (MRoot root) ∧
       (∀ k val, types !! k = Some val → filename val ≠ "" →
          entries (Roles root) !! k =
            Some {| URL := "/" +:+ filename val;
                    Threshold := threshold val;
                    Keys := make |}) ∧
       (∀ k, (∀ val, types !! k = Some val → filename val = "") →
          entries (Roles root) !! k = None)) ∧
  (∀ b, json_Marshal (Init_snapshot initTime) = inl b →
     (∀ k val, types !! k = Some val → filename val ≠ "" → k ∈ core_kinds) →
     ∃ manifests, Init_manifests initTime = Done manifests).
Proof using range_perm kinds_distinct.
  destruct (Init_manifests_cases initTime)
    as [(err & Hm & E)|(b & Hm & [(k' & Hk' & E)|(root' & E & _ & _ & Hin & Hout)])];
    rewrite E.
  - split; [done|]. intros b Hb. congruence.
  - split; [done|]. intros _ _ Hcore.
    destruct Hk' as (val & Ht & Hf & Hk'). by destruct (Hk' (Hcore _ _ Ht Hf)).
  - split; [|eauto]. intros manifests [= <-]. exists root'.
    split; [apply lookup_insert_eq|]. split; [|done].
    intros k val Ht Hf. rewrite (Hin k val Ht Hf). unfold role_for.
    by rewrite (types_at_Some k val Ht).
Qed.

(** ** Version numbers *)

(** C5. The constructors give the root, the index and the timestamp
    version 1 and the snapshot version 0, and these are the versions of the
    four manifests of the set a bootstrap hands over to be saved. *)
Theorem bootstrap_versions (initTime : Time) :
  Version (Root_SignedBase (NewRoot initTime)) = 1%N ∧
  Version (Index_SignedBase (NewIndex initTime)) = 1%N ∧
  Version (Timestamp_SignedBase (NewTimestamp initTime)) = 1%N ∧
  Version (Snapshot_SignedBase (NewSnapshot initTime)) = 0%N ∧
  ∀ manifests, Init_manifests initTime = Done manifests →
    ∃ root index snapshot timestamp,
      manifests !! ManifestTypeRoot = Some (MRoot root) ∧
      manifests !! ManifestTypeIndex = Some (MIndex index) ∧
      manifests !! ManifestTypeSnapshot = Some (MSnapshot snapshot) ∧
      manifests !! ManifestTypeTimestamp = Some (MTimestamp timestamp) ∧
      Version (Root_SignedBase root) = 1%N ∧
      Version (Index_SignedBase index) = 1%N ∧
      Version (Timestamp_SignedBase timestamp) = 1%N ∧
      Version (Snapshot_SignedBase snapshot) = 0%N.
Proof using range_perm kinds_distinct.
  do 4 (split; [done|]). intros manifests HD.
  destruct kinds_ne as (Hri & Hrs & Hrt & His & Hit & Hst).
  destruct (Init_manifests_cases initTime)
    as [(err & _ & E)|(b & _ & [(k & _ & E)|(root' & E & Hb & _)])];
    rewrite E in HD; try discriminate.
  injection HD as <-.
  exists root', (NewIndex initTime), (Init_snapshot initTime),
    (Init_timestamp initTime b).
  destruct (Init_done_lookups initTime (Init_timestamp initTime b) root')
    as (-> & -> & -> & ->).
  by rewrite Hb.
Qed.

(** ** The timestamp *)

Lemma SetSnapshot_fresh (initTime : Time) (s : Snapshot) (b : bytes) :
  json_Marshal s = inl b →
  SetSnapshot (NewTimestamp initTime) s =
    ({| Timestamp_SignedBase := Timestamp_SignedBase (NewTimestamp initTime);
        Timestamp_Meta :=
          Some {[ SignedBase_Filename (Snapshot_SignedBase s) :=
                    {| Hashes := Some {["sha256" := "TODO"]};
                       Length := N.of_nat (length b) |} ]} |}, None).
Proof. intros E. unfold SetSnapshot. by rewrite E. Qed.

(** C6. [SetSnapshot] on a timestamp fresh from [NewTimestamp], given a
    snapshot that serializes to the bytes [b], succeeds and leaves a ledger
    of one entry, under the filename of the snapshot, whose length is the
    number of bytes of [b]; and such is the ledger of the timestamp after a
    bootstrap, for the snapshot of the set. *)
Theorem SetSnapshot_records_length (initTime : Time) :
  (∀ s b, json_Marshal s = inl b →
     ∃ t h, SetSnapshot (NewTimestamp initTime) s = (t, None) ∧
       Timestamp_Meta t =
         Some {[ SignedBase_Filename (Snapshot_SignedBase s) := h ]} ∧
       Length h = N.of_nat (length b)) ∧
  (∀ manifests, Init_manifests initTime = Done manifests →
     ∃ s t b h,
       manifests !! ManifestTypeSnapshot = Some (MSnapshot s) ∧
       manifests !! ManifestTypeTimestamp = Some (MTimestamp t) ∧
       json_Marshal s = inl b ∧
       Timestamp_Meta t = Some {[ Filename (MSnapshot s) := h ]} ∧
       Length h = N.of_nat (length b)).
Proof using range_perm kinds_distinct.
  split.
  - intros s b Hb. rewrite (SetSnapshot_fresh initTime s b Hb). eauto.
  - intros manifests HD.
    destruct kinds_ne as (Hri & Hrs & Hrt & His & Hit & Hst).
    destruct (Init_manifests_cases initTime)
      as [(err & _ & E)|(b & Hm & [(k & _ & E)|(root' & E & Hb & _)])];
      rewrite E in HD; try discriminate.
    injection HD as <-.
    exists (Init_snapshot initTime), (Init_timestamp initTime b), b.
    eexists.
    destruct (Init_done_lookups initTime (Init_timestamp initTime b) root')
      as (_ & _ & -> & ->).
    done.
Qed.

(** C7. When the snapshot does not serialize, [SetSnapshot] returns the
    error of the encoder and the timestamp as it received it, its ledger
    untouched. *)
Theorem SetSnapshot_failure (manifest : Timestamp) (s : Snapshot) (err : error) :
  json_Marshal s = inr err →
  SetSnapshot manifest s = (manifest, Some err) ∧
  Timestamp_Meta (SetSnapshot manifest s).1 = Timestamp_Meta manifest.
Proof. intros E. unfold SetSnapshot. by rewrite E. Qed.

(** The hash [SetSnapshot] records is the same for every snapshot. *)
Lemma SetSnapshot_hash (manifest t : Timestamp) (s : Snapshot) :
  SetSnapshot manifest s = (t, None) →
  ∃ h, entries (Timestamp_Meta t) !! SignedBase_Filename (Snapshot_SignedBase s)
         = Some h ∧
       Hashes h = Some {["sha256" := "TODO"]}.
Proof.
  unfold SetSnapshot. destruct (json_Marshal s) as [b|err]; [|done].
  intros [= <-]. simpl. rewrite lookup_insert_eq. eauto.
Qed.

Lemma SetSnapshot_success (manifest : Timestamp) (s : Snapshot) (b : bytes) :
  json_Marshal s = inl b → ∃ t, SetSnapshot manifest s = (t, None).
Proof. intros E. unfold SetSnapshot. rewrite E. eauto. Qed.

(** ** [SetRole] once more *)

(** C8. Two calls of [SetRole] with manifests of one kind leave the root as
    a single call does, be it the second call alone or the first alone: one
    role under that kind, the role of the kind, and as many roles in all. *)
Theorem SetRole_idempotent (manifest : Root) (m1 m2 : ValidManifest) :
  Ty (Base m1) = Ty (Base m2) →
  SetRole (SetRole manifest m1) m2 = SetRole manifest m2 ∧
  SetRole (SetRole manifest m1) m2 = SetRole manifest m1 ∧
  entries (Roles (SetRole (SetRole manifest m1) m2)) !! Ty (Base m1) =
    Some {| URL := "/" +:+ Filename m1;
            Threshold := threshold (types_at (Ty (Base m1)));
            Keys := make |} ∧
  size (entries (Roles (SetRole (SetRole manifest m1) m2))) =
    size (entries (Roles (SetRole manifest m1))).
Proof.
  intros E.
  assert (SetRole manifest m2 = SetRole manifest m1) as E21.
  { unfold SetRole, Filename, SignedBase_Filename. by rewrite E. }
  assert (SetRole (SetRole manifest m1) m2 = SetRole manifest m2) as ->.
  { unfold SetRole at 1. rewrite SetRole_Roles, SetRole_Base.
    rewrite E, insert_insert_eq.
    unfold SetRole, entries. by destruct (Roles manifest). }
  rewrite E21. split; [done|]. split; [done|]. split; [|done].
  rewrite SetRole_Roles. simpl. by rewrite lookup_insert_eq.
Qed.

(** C10. Whatever the root held before, after [SetRole] the role under the
    kind of the argument has an allocated, empty key set: the keys of a
    role that was there are gone. *)
Theorem SetRole_discards_keys (manifest : Root) (m : ValidManifest) :
  ∃ role,
    entries (Roles (SetRole manifest m)) !! Ty (Base m) = Some role ∧
    Keys role = Some ∅ ∧
    ∀ id, entries (Keys role) !! id = None.
Proof.
  exists (role_for (Ty (Base m))). rewrite SetRole_Roles. simpl.
  rewrite lookup_insert_eq. done.
Qed.

End Properties.

(** * The code at work in the concrete world *)

Section Runs.
Import Sample.
#[local] Existing Instance payloads.
#[local] Existing Instance world.

Lemma range_ok (V : Type) (m : gmap string V) : range m ≡ₚ map_to_list m.
Proof. reflexivity. Defined.

Lemma range_gapped_ok (V : Type) (m : gmap string V) :
  @range _ world_gapped V m ≡ₚ map_to_list m.
Proof. reflexivity. Defined.

Lemma kinds_ok : NoDup core_kinds.
Proof. apply (bool_decide_unpack _). vm_compute. exact I. Defined.

Lemma kinds_gapped_ok : NoDup (@core_kinds _ world_gapped).
Proof. apply (bool_decide_unpack _). vm_compute. exact I. Defined.

Lemma bootstrapped_run : Init_manifests epoch = Done bootstrapped.
Proof. vm_compute. reflexivity. Defined.

(** The bootstrap at [epoch] writes four files and returns no error. *)
Example Init_run :
  let run := Init "repo" epoch (∅ : disk) in
  run.2 = Done tt ∧
  size run.1 = 4 ∧
  Ty ∘ Base <$> run.1 !! "repo/root.json" = Some "root" ∧
  Ty ∘ Base <$> run.1 !! "repo/index.json" = Some "index" ∧
  Ty ∘ Base <$> run.1 !! "repo/snapshot.json" = Some "snapshot" ∧
  Ty ∘ Base <$> run.1 !! "repo/timestamp.json" = Some "timestamp".
Proof. repeat split; vm_compute; reflexivity. Qed.

(** The bytes of the snapshot of the bootstrap. *)
Example snapshot0_json :
  json_Marshal snapshot0 =
    inl (String.list_byte_of_string
      ("{" +:+ field "_type" (default "" (quote "snapshot")) +:+ ","
           +:+ field "spec_version" (default "" (quote "0.1.0")) +:+ ","
           +:+ field "expires" (default "" (quote "1970-01-02T00:00:00Z"))
           +:+ "," +:+ field "version" "0" +:+ ","
           +:+ field "meta"
                 ("{" +:+ field "index.json" ("{" +:+ field "version" "1" +:+ "}")
                  +:+ "," +:+
                  field "root.json" ("{" +:+ field "version" "1" +:+ "}") +:+ "}")
           +:+ "}")).
Proof. vm_compute. reflexivity. Qed.

(** ** The ledger of the snapshot *)

(** On a snapshot fresh from [NewSnapshot] the ledger is the one of the
    list. *)
Example SetVersions_fresh_ledger : replaces_ledger (NewSnapshot epoch) only_root.
Proof.
  intros f fv. split.
  - intros L. exists "root", (MRoot (NewRoot epoch)). split; [reflexivity|].
    destruct (decide (f = "root.json")) as [->|Hf].
    + split; [reflexivity|]. vm_compute in L. by injection L as <-.
    + rewrite (SetVersions_miss range_ok) in L; [discriminate L|].
      intros k m Hk. unfold only_root in Hk.
      by apply lookup_singleton_Some in Hk as [_ <-].
  - intros (k & m & Hk & <- & ->). unfold only_root in Hk.
    by apply lookup_singleton_Some in Hk as [_ <-].
Qed.

(** A stale entry survives [SetVersions]: the ledger is not replaced. *)
Lemma SetVersions_keeps_stale_entry : ¬ replaces_ledger stale only_root.
Proof.
  intros Hrep.
  destruct (Hrep "stale.json" {| FileVersion_Version := 7%N |}) as [Hin _].
  destruct Hin as (k & m & Hk & Hf & _); [vm_compute; reflexivity|].
  unfold only_root in Hk. apply lookup_singleton_Some in Hk as [_ <-].
  vm_compute in Hf. discriminate.
Defined.

Lemma SetVersions_merges_witness :
  entries (Snapshot_Meta (SetVersions stale only_root)) !! "root.json" =
    Some {| FileVersion_Version := 1%N |} ∧
  entries (Snapshot_Meta (SetVersions stale only_root)) !! "stale.json" =
    Some {| FileVersion_Version := 7%N |}.
Proof.
  destruct (SetVersions_merges range_ok stale only_root) as (_ & Hown & Hkeep).
  split.
  - apply (Hown "root" (MRoot (NewRoot epoch))); [reflexivity|].
    intros k' m' Hk' _. unfold only_root in Hk'.
    by apply lookup_singleton_Some in Hk' as [_ <-].
  - rewrite (Hkeep "stale.json"); [vm_compute; reflexivity|].
    intros k m Hk. unfold only_root in Hk.
    apply lookup_singleton_Some in Hk as [_ <-]. vm_compute. discriminate.
Defined.

(** The snapshot of the bootstrap has no entry of its own. *)
Lemma Init_ledger_lacks_snapshot : ¬ ledger_covers_all epoch.
Proof.
  intros Hall.
  destruct (Hall bootstrapped bootstrapped_run) as (s & Hs & Hcov).
  assert (s = snapshot0) as ->.
  { vm_compute in Hs. injection Hs as <-. vm_compute. reflexivity. }
  assert (bootstrapped !! "snapshot" = Some (MSnapshot snapshot0)) as Hk
    by (vm_compute; reflexivity).
  assert (entries (Snapshot_Meta snapshot0) !! Filename (MSnapshot snapshot0)
          = None) as Hnone by (vm_compute; reflexivity).
  specialize (Hcov "snapshot" (MSnapshot snapshot0) Hk).
  rewrite Hnone in Hcov. discriminate Hcov.
Defined.

Lemma Init_ledger_witness :
  Init_manifests epoch = Done bootstrapped ∧
  ∃ s, bootstrapped !! "snapshot" = Some (MSnapshot s) ∧
    (∀ f fv,
       entries (Snapshot_Meta s) !! f = Some fv ↔
       ∃ k m, (k = "root" ∨ k = "index") ∧
              bootstrapped !! k = Some m ∧ Filename m = f ∧ fv = version_of m) ∧
    ((∀ k m, k = "root" ∨ k = "index" →
             bootstrapped !! k = Some m → Filename m ≠ Filename (MSnapshot s)) →
     entries (Snapshot_Meta s) !! Filename (MSnapshot s) = None).
Proof.
  split; [exact bootstrapped_run|].
  exact (Init_ledger range_ok kinds_ok epoch bootstrapped bootstrapped_run).
Defined.

(** ** Gaps in the registry *)


(** With the sixth kind in the registry the bootstrap stops at it and
    writes nothing. *)
Example Init_gapped_run :
  @Init _ world_gapped "repo" epoch (∅ : disk) =
    (∅, Fail "manifest 'mirror' not initialized porperly").
Proof. vm_compute. reflexivity. Qed.



(** ** The roles of the root *)

Lemma Init_root_roles_witness :
  ∃ root, bootstrapped !! "root" = Some (MRoot root) ∧
    entries (Roles root) !! "root" =
      Some {| URL := "/root.json"; Threshold := 1%N; Keys := make |} ∧
    entries (Roles root) !! "timestamp" =
      Some {| URL := "/timestamp.json"; Threshold := 1%N; Keys := make |} ∧
    entries (Roles root) !! "component" = None.
Proof.
  destruct (Init_root_roles range_ok kinds_ok epoch) as [Hroles _].
  destruct (Hroles bootstrapped bootstrapped_run) as (root & Hr & Hin & Hout).
  exists root. split; [exact Hr|]. split; [|split].
  - apply (Hin "root" {| filename := "root.json"; expire := (365 * day)%Z;
                         threshold := 1%N |}); [reflexivity|discriminate].
  - apply (Hin "timestamp" {| filename := "timestamp.json"; expire := day;
                              threshold := 1%N |}); [reflexivity|discriminate].
  - apply Hout. intros val Hval. vm_compute in Hval. by injection Hval as <-.
Defined.

(** ** Version numbers *)

Lemma bootstrap_versions_witness :
  ∃ root index snapshot timestamp,
    bootstrapped !! "root" = Some (MRoot root) ∧
    bootstrapped !! "index" = Some (MIndex index) ∧
    bootstrapped !! "snapshot" = Some (MSnapshot snapshot) ∧
    bootstrapped !! "timestamp" = Some (MTimestamp timestamp) ∧
    Version (Root_SignedBase root) = 1%N ∧
    Version (Index_SignedBase index) = 1%N ∧
    Version (Timestamp_SignedBase timestamp) = 1%N ∧
    Version (Snapshot_SignedBase snapshot) = 0%N.
Proof.
  destruct (bootstrap_versions range_ok kinds_ok epoch) as (_ & _ & _ & _ & Hall).
  exact (Hall bootstrapped bootstrapped_run).
Defined.

(** ** The timestamp *)

Lemma snapshot0_bytes :
  ∃ b, json_Marshal snapshot0 = inl b ∧ length b = 150.
Proof. eexists. split; vm_compute; reflexivity. Defined.

Lemma snapshot1_bytes :
  ∃ b, json_Marshal snapshot1 = inl b ∧ length b = 211.
Proof. eexists. split; vm_compute; reflexivity. Defined.

Lemma SetSnapshot_records_length_witness :
  ∃ t h, SetSnapshot (NewTimestamp epoch) snapshot0 = (t, None) ∧
    Timestamp_Meta t = Some {[ "snapshot.json" := h ]} ∧
    Length h = 150%N.
Proof.
  destruct (SetSnapshot_records_length range_ok kinds_ok epoch) as [Hfresh _].
  destruct snapshot0_bytes as (b & Hb & Hlen).
  destruct (Hfresh snapshot0 b Hb) as (t & h & Ht & Hmeta & Hh).
  exists t, h. split; [exact Ht|]. split; [exact Hmeta|].
  rewrite Hh, Hlen. reflexivity.
Defined.

Lemma SetSnapshot_failure_witness :
  json_Marshal unprintable = inr "json: unsupported value" ∧
  SetSnapshot timestamp0 unprintable =
    (timestamp0, Some "json: unsupported value") ∧
  Timestamp_Meta (SetSnapshot timestamp0 unprintable).1 =
    Timestamp_Meta timestamp0.
Proof.
  split; [reflexivity|].
  apply (SetSnapshot_failure timestamp0 unprintable). reflexivity.
Defined.

(** ** [SetRole] *)

Lemma SetRole_idempotent_witness :
  Ty (Base (MIndex (NewIndex epoch))) = Ty (Base (MIndex index_bumped)) ∧
  SetRole (SetRole keyed_root (MIndex (NewIndex epoch))) (MIndex index_bumped) =
    SetRole keyed_root (MIndex index_bumped) ∧
  SetRole (SetRole keyed_root (MIndex (NewIndex epoch))) (MIndex index_bumped) =
    SetRole keyed_root (MIndex (NewIndex epoch)) ∧
  entries (Roles (SetRole (SetRole keyed_root (MIndex (NewIndex epoch)))
                    (MIndex index_bumped))) !! "index" =
    Some {| URL := "/index.json"; Threshold := 1%N; Keys := make |} ∧
  size (entries (Roles (SetRole (SetRole keyed_root (MIndex (NewIndex epoch)))
                          (MIndex index_bumped)))) =
    size (entries (Roles (SetRole keyed_root (MIndex (NewIndex epoch))))).
Proof.
  split; [reflexivity|].
  exact (SetRole_idempotent keyed_root (MIndex (NewIndex epoch))
           (MIndex index_bumped) eq_refl).
Defined.

(** The key the role of the index had is gone after [SetRole]. *)
Example SetRole_drops_key :
  (∃ role, entries (Roles keyed_root) !! "index" = Some role ∧
           entries (Keys role) !! "key-1" = Some "ed25519") ∧
  (∃ role, entries (Roles (SetRole keyed_root (MIndex (NewIndex epoch))))
             !! "index" = Some role ∧
           entries (Keys role) !! "key-1" = None).
Proof. split; eexists; split; vm_compute; reflexivity. Qed.

(** ** The recorded hash *)

(** C9, on the code. After the bootstrap at [epoch], with the index taken
    to version 2 and the snapshot rebuilt by [SetVersions] over the set,
    the ledger shows version 2 for the file of the index and the snapshot
    serializes to other bytes than before; yet [SetSnapshot] records the
    same hash for it, the text TODO, so that the hash does not tell the two
    snapshots apart. *)
Theorem SetSnapshot_hash_blind :
  entries (Snapshot_Meta snapshot1) !! "index.json" =
    Some {| FileVersion_Version := 2%N |} ∧
  json_Marshal snapshot1 ≠ json_Marshal snapshot0 ∧
  (∃ t0 t1 h0 h1,
     SetSnapshot timestamp0 snapshot0 = (t0, None) ∧
     SetSnapshot timestamp0 snapshot1 = (t1, None) ∧
     entries (Timestamp_Meta t0) !! "snapshot.json" = Some h0 ∧
     entries (Timestamp_Meta t1) !! "snapshot.json" = Some h1 ∧
     Hashes h0 = Some {[ "sha256" := "TODO" ]} ∧
     Hashes h1 = Hashes h0) ∧
  ¬ digest_tells_apart timestamp0 snapshot0 snapshot1.
Proof.
  split; [vm_compute; reflexivity|].
  assert (json_Marshal snapshot1 ≠ json_Marshal snapshot0) as Hne.
  { vm_compute. discriminate. }
  split; [exact Hne|].
  destruct snapshot0_bytes as (b0 & Hb0 & _).
  destruct snapshot1_bytes as (b1 & Hb1 & _).
  destruct (SetSnapshot_success timestamp0 snapshot0 b0 Hb0) as [t0 H0].
  destruct (SetSnapshot_success timestamp0 snapshot1 b1 Hb1) as [t1 H1].
  destruct (SetSnapshot_hash timestamp0 t0 snapshot0 H0) as (h0 & L0 & Hh0).
  destruct (SetSnapshot_hash timestamp0 t1 snapshot1 H1) as (h1 & L1 & Hh1).
  assert (Hashes h1 = Hashes h0) as Hsame.
  { rewrite Hh1. symmetry. exact Hh0. }
  split.
  - exists t0, t1, h0, h1.
    split; [exact H0|]. split; [exact H1|]. split; [exact L0|].
    split; [exact L1|]. split; [exact Hh0|exact Hsame].
  - intros Htell.
    apply (Htell t0 t1 h0 h1 H0 H1 (not_eq_sym Hne) L0 L1).
    symmetry. exact Hsame.
Qed.

End Runs.

(** * Further properties of the bootstrap *)

Section Further.
Context `{World}.

(** ** [SetVersions] and the order of visit *)

Lemma visits_all_range (r : ∀ V : Type, gmap string V → list (string * V)) :
  visits_all r →
  ∀ (V : Type) (m : gmap string V), @range _ (with_range r) V m ≡ₚ map_to_list m.
Proof. intros Hr V m. apply Hr. Qed.

Lemma Snapshot_ext (s1 s2 : Snapshot) :
  Snapshot_SignedBase s1 = Snapshot_SignedBase s2 →
  entries (Snapshot_Meta s1) = entries (Snapshot_Meta s2) →
  is_Some (Snapshot_Meta s1) → is_Some (Snapshot_Meta s2) →
  s1 = s2.
Proof.
  destruct s1 as [b1 [M1|]], s2 as [b2 [M2|]]; simpl;
    intros -> E [? ?] [? ?]; simplify_eq; done.
Qed.

Lemma SetVersions_orders_agree
    (r1 r2 : ∀ V : Type, gmap string V → list (string * V))
    (manifest : Snapshot) (manifestList : gmap string ValidManifest) :
  visits_all r1 → visits_all r2 →
  (∀ k m k' m', manifestList !! k = Some m → manifestList !! k' = Some m' →
     Filename m = Filename m' → Version (Base m) = Version (Base m')) →
  @SetVersions _ (with_range r1) manifest manifestList =
    @SetVersions _ (with_range r2) manifest manifestList.
Proof.
  intros Hr1 Hr2 Hagree.
  apply Snapshot_ext; [done| |by rewrite SetVersions_Meta..].
  apply map_eq. intros f.
  destruct (decide (Exists (λ kv : string * ValidManifest, Filename kv.2 = f)
                      (map_to_list manifestList)))
    as [([k m] & Hin & E)%Exists_exists|Hno].
  - apply elem_of_map_to_list in Hin. simpl in E. subst f.
    destruct (@SetVersions_hit _ (with_range r1) (visits_all_range r1 Hr1)
                manifest manifestList k m Hin) as (k1 & m1 & Hk1 & E1 & L1).
    destruct (@SetVersions_hit _ (with_range r2) (visits_all_range r2 Hr2)
                manifest manifestList k m Hin) as (k2 & m2 & Hk2 & E2 & L2).
    etrans; [exact L1|]. symmetry. etrans; [exact L2|].
    unfold version_of. f_equal. f_equal.
    rewrite (Hagree k1 m1 k m Hk1 Hin E1).
    apply (Hagree k2 m2 k m Hk2 Hin E2).
  - assert (∀ k m, manifestList !! k = Some m → Filename m ≠ f) as Hmiss.
    { intros k m Hk E. apply Hno, Exists_exists. exists (k, m).
      split; [by apply elem_of_map_to_list|done]. }
    etrans.
    { exact (@SetVersions_miss _ (with_range r1) (visits_all_range r1 Hr1)
               manifest manifestList f Hmiss). }
    symmetry.
    exact (@SetVersions_miss _ (with_range r2) (visits_all_range r2 Hr2)
             manifest manifestList f Hmiss).
Qed.

(** X2. When the manifests of the list that share a filename agree on
    their version, as they do when filenames are distinct, [SetVersions]
    leaves the same snapshot whatever the order in which [range] visits
    the list. *)
Theorem SetVersions_any_order
    (r1 r2 : ∀ V : Type, gmap string V → list (string * V))
    (manifest : Snapshot) (manifestList : gmap string ValidManifest) :
  visits_all r1 → visits_all r2 →
  (∀ k m k' m', manifestList !! k = Some m → manifestList !! k' = Some m' →
     Filename m = Filename m' → Version (Base m) = Version (Base m')) →
  @SetVersions _ (with_range r1) manifest manifestList =
    @SetVersions _ (with_range r2) manifest manifestList.
Proof. apply SetVersions_orders_agree. Qed.

(** X1. When the manifests of the list that share a filename agree on
    their version, a second run of [SetVersions] over the same list, in
    whatever order it visits the list, leaves the snapshot as the first run
    left it. *)
Theorem SetVersions_twice
    (r1 r2 : ∀ V : Type, gmap string V → list (string * V))
    (manifest : Snapshot) (manifestList : gmap string ValidManifest) :
  visits_all r1 → visits_all r2 →
  (∀ k m k' m', manifestList !! k = Some m → manifestList !! k' = Some m' →
     Filename m = Filename m' → Version (Base m) = Version (Base m')) →
  @SetVersions _ (with_range r2)
     (@SetVersions _ (with_range r1) manifest manifestList) manifestList =
    @SetVersions _ (with_range r1) manifest manifestList.
Proof.
  intros Hr1 Hr2 Hagree.
  apply Snapshot_ext; [done| |by rewrite SetVersions_Meta..].
  apply map_eq. intros f.
  destruct (decide (Exists (λ kv : string * ValidManifest, Filename kv.2 = f)
                      (map_to_list manifestList)))
    as [([k m] & Hin & E)%Exists_exists|Hno].
  - apply elem_of_map_to_list in Hin. simpl in E. subst f.
    destruct (@SetVersions_hit _ (with_range r1) (visits_all_range r1 Hr1)
                manifest manifestList k m Hin) as (k1 & m1 & Hk1 & E1 & L1).
    destruct (@SetVersions_hit _ (with_range r2) (visits_all_range r2 Hr2)
                (@SetVersions _ (with_range r1) manifest manifestList)
                manifestList k m Hin) as (k2 & m2 & Hk2 & E2 & L2).
    etrans; [exact L2|]. symmetry. etrans; [exact L1|].
    unfold version_of. f_equal. f_equal.
    rewrite (Hagree k1 m1 k m Hk1 Hin E1). symmetry.
    apply (Hagree k2 m2 k m Hk2 Hin E2).
  - assert (∀ k m, manifestList !! k = Some m → Filename m ≠ f) as Hmiss.
    { intros k m Hk E. apply Hno, Exists_exists. exists (k, m).
      split; [by apply elem_of_map_to_list|done]. }
    exact (@SetVersions_miss _ (with_range r2) (visits_all_range r2 Hr2)
             (@SetVersions _ (with_range r1) manifest manifestList)
             manifestList f Hmiss).
Qed.

Lemma visits_all_forwards : visits_all (λ V : Type, map_to_list).
Proof. intros V m. done. Qed.

Lemma visits_all_backwards : visits_all backwards.
Proof. intros V m. apply reverse_Permutation. Qed.

(** X3. Two manifests stored under different keys that share a filename
    and differ in version make the ledger depend on the order of visit: the
    order of [map_to_list] and the opposite order record different versions
    under that filename. *)
Theorem SetVersions_order_matters
    (manifest : Snapshot) (k1 k2 : string) (m1 m2 : ValidManifest) :
  k1 ≠ k2 → Filename m1 = Filename m2 →
  Version (Base m1) ≠ Version (Base m2) →
  @SetVersions _ (with_range (λ V : Type, map_to_list)) manifest
     (<[k1 := m1]> {[k2 := m2]}) ≠
  @SetVersions _ (with_range backwards) manifest (<[k1 := m1]> {[k2 := m2]}).
Proof.
  intros Hk Hf Hv Heq.
  apply (f_equal (λ s, entries (Snapshot_Meta s) !! Filename m1)) in Heq.
  rewrite !SetVersions_Meta in Heq. simpl in Heq. unfold backwards in Heq.
  assert (map_to_list (<[k1 := m1]> ({[k2 := m2]} : gmap string ValidManifest))
            ≡ₚ [(k1, m1); (k2, m2)]) as Hperm.
  { etrans; [apply map_to_list_insert; by rewrite lookup_singleton_ne|].
    by rewrite map_to_list_singleton. }
  symmetry in Hperm. apply Permutation_length_2_inv in Hperm as [E | E];
    rewrite E in Heq; simpl in Heq;
    unfold SetVersions_step, Filename, SignedBase_Filename, types_at, with_range
      in Heq, Hf;
    simpl in Heq; rewrite Hf in Heq; rewrite !lookup_insert_eq in Heq;
    injection Heq as Heq; by destruct Hv.
Qed.

(** ** [SetSnapshot] and [SetRole] called in turn *)

(** X4. Of two successful calls of [SetSnapshot] for snapshots of one
    filename only the second shows: the timestamp is as after the second
    call alone. The first call had left every entry under another key as it
    was. *)
Theorem SetSnapshot_last_wins
    (manifest : Timestamp) (s1 s2 : Snapshot) (b1 b2 : bytes) :
  json_Marshal s1 = inl b1 → json_Marshal s2 = inl b2 →
  SignedBase_Filename (Snapshot_SignedBase s1) =
    SignedBase_Filename (Snapshot_SignedBase s2) →
  SetSnapshot (SetSnapshot manifest s1).1 s2 = SetSnapshot manifest s2 ∧
  ∀ f, f ≠ SignedBase_Filename (Snapshot_SignedBase s1) →
    entries (Timestamp_Meta (SetSnapshot manifest s1).1) !! f =
      entries (Timestamp_Meta manifest) !! f.
Proof.
  intros E1 E2 Ef. unfold SetSnapshot. rewrite E1, E2. simpl. split.
  - rewrite Ef, insert_insert_eq. done.
  - intros f Hf. rewrite lookup_insert_ne by done.
    by destruct (Timestamp_Meta manifest).
Qed.

Lemma Root_ext (r1 r2 : Root) :
  Root_SignedBase r1 = Root_SignedBase r2 → Roles r1 = Roles r2 → r1 = r2.
Proof. destruct r1, r2; simpl; by intros -> ->. Qed.

(** X5. Calls of [SetRole] for manifests of different kinds commute. *)
Theorem SetRole_commutes (manifest : Root) (m1 m2 : ValidManifest) :
  Ty (Base m1) ≠ Ty (Base m2) →
  SetRole (SetRole manifest m1) m2 = SetRole (SetRole manifest m2) m1.
Proof.
  intros Hne. apply Root_ext; [done|].
  rewrite !SetRole_Roles. simpl. f_equal. by apply insert_insert_ne.
Qed.

(** X6. [SetRole] touches the role of one kind only: the role of every
    other kind is as before, and the root has one role more if the kind had
    none, as many as before if it had one. *)
Theorem SetRole_frame (manifest : Root) (m : ValidManifest) :
  (∀ k, k ≠ Ty (Base m) →
     entries (Roles (SetRole manifest m)) !! k = entries (Roles manifest) !! k) ∧
  size (entries (Roles (SetRole manifest m))) =
    match entries (Roles manifest) !! Ty (Base m) with
    | Some _ => size (entries (Roles manifest))
    | None => S (size (entries (Roles manifest)))
    end.
Proof.
  rewrite SetRole_Roles. simpl. split.
  - intros k Hk. by apply lookup_insert_ne.
  - rewrite map_size_insert. by destruct (entries (Roles manifest) !! Ty (Base m)).
Qed.

End Further.

Section FurtherInit.
Context `{World}.

Hypothesis range_perm :
  ∀ (V : Type) (m : gmap string V), range m ≡ₚ map_to_list m.
Hypothesis kinds_distinct : NoDup core_kinds.

(** ** When [Init] succeeds and how it fails *)

(** X7. [Init] reaches [batchSaveManifests] exactly when the snapshot
    serializes and every kind the registry gives a filename to is one of
    the four it builds. *)
Theorem Init_succeeds_iff (initTime : Time) :
  (∃ manifests, Init_manifests initTime = Done manifests) ↔
  (∃ b, json_Marshal (Init_snapshot initTime) = inl b) ∧
  (∀ k val, types !! k = Some val → filename val ≠ "" → k ∈ core_kinds).
Proof using range_perm kinds_distinct.
  destruct (Init_manifests_cases range_perm kinds_distinct initTime)
    as [(err & Hm & E)|(b & Hm & [(k & Hk & E)|(root' & E & _ & Hno & _)])];
    rewrite E.
  - split; [by intros [? ?]|]. intros [[b Hb] _]. congruence.
  - split; [by intros [? ?]|]. intros [_ Hcore].
    destruct Hk as (val & Ht & Hf & Hk). by destruct (Hk (Hcore _ _ Ht Hf)).
  - split; [|eauto]. intros _. split; [eauto|]. intros k val Ht Hf.
    destruct (decide (k ∈ core_kinds)) as [|Hk]; [done|].
    destruct (Hno k). by exists val.
Qed.

(** X8. Before it saves, [Init] returns one of two errors only: the error
    of the encoder on the snapshot, or the text "manifest '...' not
    initialized porperly" with, between the quotes, a kind the registry
    gives a filename to and [Init] does not build. In the first case
    nothing is saved: the file system is as the call found it. *)
Theorem Init_early_errors (dst : string) (initTime : Time) (fs : FS) (err : error) :
  (Init_manifests initTime = Fail err →
     json_Marshal (Init_snapshot initTime) = inr err ∨
     ∃ k, registry_gap k ∧
          err = "manifest '" +:+ k +:+ "' not initialized porperly") ∧
  (json_Marshal (Init_snapshot initTime) = inr err →
     Init dst initTime fs = (fs, Fail err)).
Proof using range_perm kinds_distinct.
  unfold Init.
  destruct (Init_manifests_cases range_perm kinds_distinct initTime)
    as [(err' & Hm & E)|(b & Hm & [(k & Hk & E)|(root' & E & _)])];
    rewrite E; split; try congruence.
  - intros [= <-]. by left.
  - intros [= <-]. right. eauto.
Qed.

(** X9. [Init] does not panic: the type assertions on the entries of the
    set find what they assert, whatever the registry holds. *)
Theorem Init_never_panics (dst : string) (initTime : Time) (fs : FS) :
  (Init dst initTime fs).2 ≠ Panic.
Proof using range_perm kinds_distinct.
  unfold Init.
  destruct (Init_manifests_cases range_perm kinds_distinct initTime)
    as [(err' & _ & ->)|(b & _ & [(k & _ & ->)|(root' & -> & _)])];
    try done.
  by destruct (batchSaveManifests _ _ _) as [? [?|]].
Qed.

(** ** The set [Init] hands over *)

(** X10. The set a successful [Init] hands over holds four manifests, one
    under each of the four kinds, and every one of them carries the kind it
    is stored under, the protocol version at hand, and for its expiry the
    time of the bootstrap advanced by the duration the registry gives its
    kind, in the layout RFC 3339. *)
Theorem Init_four_manifests
    (initTime : Time) (manifests : gmap string ValidManifest) :
  Init_manifests initTime = Done manifests →
  dom manifests = list_to_set core_kinds ∧
  size manifests = 4 ∧
  ∀ k m, manifests !! k = Some m →
    Ty (Base m) = k ∧
    SpecVersion (Base m) = CurrentSpecVersion ∧
    Expires (Base m) =
      Time_Format (Time_Add initTime (expire (types_at k))) RFC3339.
Proof using range_perm kinds_distinct.
  intros HD.
  destruct (Init_manifests_cases range_perm kinds_distinct initTime)
    as [(err & _ & E)|(b & _ & [(k & _ & E)|(root' & E & Hb & _)])];
    rewrite E in HD; try discriminate.
  injection HD as <-.
  assert (dom (<[ManifestTypeRoot := MRoot root']>
                 (Init_set initTime (Init_timestamp initTime b)))
          = list_to_set core_kinds) as Hdom.
  { apply set_eq. intros k.
    rewrite elem_of_dom, lookup_insert_is_Some', Init_set_lookup,
      elem_of_list_to_set.
    split; [|tauto]. intros [<-|Hk]; [|done].
    unfold core_kinds. apply elem_of_cons. by left. }
  split; [done|]. split.
  { rewrite <- size_dom, Hdom, size_list_to_set by done. done. }
  intros k m. rewrite lookup_insert. case_decide as Ek.
  - intros [= <-]. subst k. simpl. by rewrite Hb.
  - unfold Init_set. rewrite !lookup_insert, lookup_empty.
    repeat case_decide; subst; intros [= <-]; done.
Qed.

(** X11. The index a successful [Init] hands over is empty: it has no
    owner, no component and no default component, each of the three
    collections being allocated. *)
Theorem Init_index_empty
    (initTime : Time) (manifests : gmap string ValidManifest) :
  Init_manifests initTime = Done manifests →
  ∃ index, manifests !! ManifestTypeIndex = Some (MIndex index) ∧
    Owners index = Some ∅ ∧ Components index = Some ∅ ∧
    DefaultComponents index = Some [].
Proof using range_perm kinds_distinct.
  intros HD.
  destruct (Init_manifests_cases range_perm kinds_distinct initTime)
    as [(err & _ & E)|(b & _ & [(k & _ & E)|(root' & E & Hb & _)])];
    rewrite E in HD; try discriminate.
  injection HD as <-.
  destruct (Init_done_lookups kinds_distinct initTime
              (Init_timestamp initTime b) root') as (_ & Hi & _).
  exists (NewIndex initTime). by split.
Qed.

End FurtherInit.

Section Allocated.
Context `{World}.

Lemma Init_roles_allocated (todo : list (string * ty)) :
  ∀ (manifests manifests' : gmap string ValidManifest) (root : Root),
    manifests !! ManifestTypeRoot = Some (MRoot root) →
    is_Some (Roles root) →
    Init_roles todo manifests = Done manifests' →
    ∃ root', manifests' !! ManifestTypeRoot = Some (MRoot root') ∧
             is_Some (Roles root').
Proof.
  induction todo as [|[k val] todo IH]; intros manifests manifests' root Hr Ha;
    simpl.
  - intros [= <-]. eauto.
  - case_decide; [by apply (IH _ _ root)|].
    destruct (manifests !! k) as [m|]; [|done]. rewrite Hr.
    apply (IH _ _ (SetRole root m)); [apply lookup_insert_eq|].
    by rewrite SetRole_Roles.
Qed.

Lemma Init_done_root_allocated
    (initTime : Time) (manifests : gmap string ValidManifest) :
  NoDup core_kinds →
  Init_manifests initTime = Done manifests →
  ∃ root', manifests !! ManifestTypeRoot = Some (MRoot root') ∧
           is_Some (Roles root').
Proof.
  intros Hk. rewrite Init_manifests_unfold.
  destruct (SetSnapshot _ _) as [timestamp [err|]]; [done|].
  apply (Init_roles_allocated _ _ _ (NewRoot initTime)).
  - by apply Init_set_root.
  - by eexists.
Qed.

End Allocated.

Section AnyOrder.
Context `{World}.

(** The registry fixes the roles of a root that has a role for each kind
    with a filename and for no other. *)
Lemma roles_determined (root1 root2 : Root) :
  is_Some (Roles root1) → is_Some (Roles root2) →
  (∀ root, root = root1 ∨ root = root2 →
     (∀ k val, types !! k = Some val → filename val ≠ "" →
        entries (Roles root) !! k = Some (role_for k)) ∧
     (∀ k, (∀ val, types !! k = Some val → filename val = "") →
        entries (Roles root) !! k = None)) →
  Roles root1 = Roles root2.
Proof.
  intros [R1 E1] [R2 E2] Hboth. rewrite E1, E2. f_equal. apply map_eq. intros k.
  destruct (Hboth root1) as [Hin1 Hout1]; [by left|].
  destruct (Hboth root2) as [Hin2 Hout2]; [by right|].
  rewrite E1 in Hin1, Hout1. rewrite E2 in Hin2, Hout2. simpl in *.
  destruct (types !! k) as [val|] eqn:Ht.
  - destruct (decide (filename val = "")) as [Hf|Hf].
    + rewrite Hout1, Hout2; [done|intros ?; rewrite Ht; by intros [= <-]..].
    + by rewrite (Hin1 k val), (Hin2 k val).
  - rewrite Hout1, Hout2; [done|intros ?; by rewrite Ht..].
Qed.

Lemma Init_snapshot_any_order
    (r1 r2 : ∀ V : Type, gmap string V → list (string * V)) (initTime : Time) :
  visits_all r1 → visits_all r2 →
  @Init_snapshot _ (with_range r1) initTime =
    @Init_snapshot _ (with_range r2) initTime.
Proof.
  intros Hr1 Hr2.
  refine (SetVersions_orders_agree r1 r2 (NewSnapshot initTime)
            (<[ManifestTypeIndex := MIndex (NewIndex initTime)]>
               (<[ManifestTypeRoot := MRoot (NewRoot initTime)]> ∅))
            Hr1 Hr2 _).
  intros k m k' m'. rewrite !lookup_insert, !lookup_empty.
  repeat case_decide; intros [= <-] [= <-]; done.
Qed.

(** X12. The set a successful [Init] hands over does not depend on the
    order in which [range] visits the maps: a run under any other order
    succeeds as well and hands over the same set. *)
Theorem Init_any_order
    (r1 r2 : ∀ V : Type, gmap string V → list (string * V))
    (initTime : Time) (manifests : gmap string ValidManifest) :
  visits_all r1 → visits_all r2 → NoDup core_kinds →
  @Init_manifests _ (with_range r1) initTime = Done manifests →
  @Init_manifests _ (with_range r2) initTime = Done manifests.
Proof.
  intros Hr1 Hr2 Hk HD.
  pose proof (Init_snapshot_any_order r1 r2 initTime Hr1 Hr2) as HS.
  destruct (@Init_manifests_cases _ (with_range r1) (visits_all_range r1 Hr1)
              Hk initTime)
    as [(err & _ & E)|(b & Hm & [(k & _ & E)|(root1 & E1 & Hb1 & Hno & Hin1 & Hout1)])];
    rewrite E in HD || rewrite E1 in HD; try discriminate.
  injection HD as <-.
  destruct (@Init_manifests_cases _ (with_range r2) (visits_all_range r2 Hr2)
              Hk initTime)
    as [(err & Hm2 & _)|(b2 & Hm2 & [(k & Hgap & _)|(root2 & E2 & Hb2 & _ & Hin2 & Hout2)])].
  - rewrite <- HS in Hm2.
    change (@json_Marshal _ H0 (@Init_snapshot _ (with_range r1) initTime)
            = inr err) in Hm2.
    change (@json_Marshal _ H0 (@Init_snapshot _ (with_range r1) initTime)
            = inl b) in Hm.
    congruence.
  - by destruct (Hno k).
  - rewrite <- HS in Hm2.
    change (@json_Marshal _ H0 (@Init_snapshot _ (with_range r1) initTime)
            = inl b2) in Hm2.
    change (@json_Marshal _ H0 (@Init_snapshot _ (with_range r1) initTime)
            = inl b) in Hm.
    assert (b2 = b) as -> by congruence.
    rewrite E2. f_equal.
    assert (root2 = root1) as ->.
    { apply Root_ext; [by rewrite Hb1, Hb2|].
      destruct (@Init_done_root_allocated _ (with_range r1) initTime _ Hk E1)
        as (x1 & L1 & Ha1).
      destruct (@Init_done_root_allocated _ (with_range r2) initTime _ Hk E2)
        as (x2 & L2 & Ha2).
      rewrite lookup_insert_eq in L1, L2.
      injection L1 as <-. injection L2 as <-.
      apply roles_determined; [done..|].
      intros root [-> | ->].
      - split; [exact Hin2|exact Hout2].
      - split; [exact Hin1|exact Hout1]. }
    unfold Init_set, Init_timestamp. by rewrite HS.
Qed.

End AnyOrder.

(** * Properties of the client of the TiCDC open API *)

Section CDCFacts.
Context `{Transport}.

Lemma foldl_snoc_fmap {A B : Type} (f : A → B) (l : list A) :
  ∀ acc : list B, foldl (λ acc x, acc ++ [f x]) acc l = acc ++ (f <$> l).
Proof.
  induction l as [|x l IH]; intros acc; simpl.
  - by rewrite app_nil_r.
  - by rewrite IH, <- app_assoc.
Qed.

Lemma getEndpoints_fmap (c : CDCOpenAPIClient) (api : string) :
  getEndpoints c api = (λ url, url +:+ "/" +:+ api) <$> urls c.
Proof. unfold getEndpoints. by rewrite foldl_snoc_fmap. Qed.

Lemma getEndpoints_new_client
    (ctx : context_Context) (addresses : list string) (timeout : Duration)
    (tlsConfig : option tls_Config) (api : string) :
  getEndpoints (NewCDCOpenAPIClient ctx addresses timeout tlsConfig) api =
    (λ addr,
       (match tlsConfig with Some _ => "https" | None => "http" end
          +:+ "://" +:+ addr) +:+ "/" +:+ api) <$> addresses.
Proof.
  rewrite getEndpoints_fmap. unfold NewCDCOpenAPIClient. simpl.
  unfold NewCDCOpenAPIClient_urls. rewrite foldl_snoc_fmap. simpl.
  rewrite <- list_fmap_compose. by destruct tlsConfig.
Qed.

(** X13. The endpoints of a client for an API are, in the order of the
    addresses the client was made for and one for each, the address after
    the scheme and before the path of the API; the scheme is https when a
    TLS configuration was given and http when none was. *)
Theorem getEndpoints_of_addresses
    (ctx : context_Context) (addresses : list string) (timeout : Duration)
    (tlsConfig : option tls_Config) (api : string) :
  getEndpoints (NewCDCOpenAPIClient ctx addresses timeout tlsConfig) api =
    (λ addr,
       (match tlsConfig with Some _ => "https" | None => "http" end
          +:+ "://" +:+ addr) +:+ "/" +:+ api) <$> addresses.
Proof. apply getEndpoints_new_client. Qed.

(** ** Searching the captures *)

Lemma GetOwner_loop_Done (captures : list (option Capture)) (capture : Capture) :
  GetOwner_loop captures = Done capture ↔
  ∃ before after,
    captures = (Some <$> before) ++ Some capture :: after ∧
    Forall (λ x, Capture_IsOwner x = false) before ∧
    Capture_IsOwner capture = true.
Proof.
  induction captures as [|[x|] captures IH]; simpl.
  - split; [done|]. intros (before & after & E & _). by destruct before.
  - destruct (Capture_IsOwner x) eqn:Hx.
    + split.
      * intros [= <-]. exists [], captures. by repeat split.
      * intros ([|y before] & after & E & Hb & Hc); simpl in E.
        -- by injection E as <- _.
        -- injection E as <- _. apply Forall_cons in Hb as [Hy _]. congruence.
    + rewrite IH. split.
      * intros (before & after & -> & Hb & Hc).
        exists (x :: before), after. repeat split; [|done]. by constructor.
      * intros ([|y before] & after & E & Hb & Hc); simpl in E.
        -- injection E as -> _. congruence.
        -- injection E as <- ->. apply Forall_cons in Hb as [_ Hb]. eauto.
  - split; [done|]. intros ([|y before] & after & E & _); done.
Qed.

Lemma GetOwner_loop_Fail (captures : list (option Capture)) (err : error) :
  GetOwner_loop captures = Fail err ↔
  ∃ all, captures = Some <$> all ∧
         Forall (λ x, Capture_IsOwner x = false) all ∧
         err = "owner not found".
Proof.
  induction captures as [|[x|] captures IH]; simpl.
  - split.
    + intros [= <-]. by exists [].
    + by intros (all & _ & _ & ->).
  - destruct (Capture_IsOwner x) eqn:Hx.
    + split; [done|]. intros ([|y all] & E & Ha & _); [done|].
      injection E as <- _. apply Forall_cons in Ha as [Hy _]. congruence.
    + rewrite IH. split.
      * intros (all & -> & Ha & ->). exists (x :: all).
        repeat split. by constructor.
      * intros ([|y all] & E & Ha & ->); [done|]. injection E as <- ->.
        apply Forall_cons in Ha as [_ Ha]. eauto.
  - split; [done|]. by intros ([|y all] & E & _).
Qed.

(** X14. [GetOwner] returns a capture exactly when [GetAllCaptures]
    succeeds and an owner is among the captures with no nil capture before
    it; the capture returned is the first that is an owner. *)
Theorem GetOwner_first_owner
    (c : CDCOpenAPIClient) (net net' : Net) (capture : Capture) :
  GetOwner c net = (net', Done capture) ↔
  ∃ before after,
    GetAllCaptures c net =
      (net', ((Some <$> before) ++ Some capture :: after, None)) ∧
    Forall (λ x, Capture_IsOwner x = false) before ∧
    Capture_IsOwner capture = true.
Proof.
  unfold GetOwner.
  destruct (GetAllCaptures c net) as [net1 [captures [err|]]].
  - split; [by intros [= _ ?]|]. by intros (? & ? & [= _ _] & _).
  - split.
    + intros [= -> Hl]. apply GetOwner_loop_Done in Hl
        as (before & after & -> & Hb & Hc). eauto.
    + intros (before & after & [= -> ->] & Hb & Hc). f_equal.
      apply GetOwner_loop_Done. eauto.
Qed.

(** X15. [GetOwner] returns an error in two cases only: the error of
    [GetAllCaptures] when that fails, and the error "owner not found" when
    no capture is nil and none is an owner. *)
Theorem GetOwner_errors
    (c : CDCOpenAPIClient) (net net' : Net) (err : error) :
  GetOwner c net = (net', Fail err) ↔
  (∃ captures, GetAllCaptures c net = (net', (captures, Some err))) ∨
  (∃ all, GetAllCaptures c net = (net', (Some <$> all, None)) ∧
          Forall (λ x, Capture_IsOwner x = false) all ∧
          err = "owner not found").
Proof.
  unfold GetOwner.
  destruct (GetAllCaptures c net) as [net1 [captures [err1|]]].
  - split.
    + intros [= -> ->]. left. eauto.
    + intros [(? & [= -> _ ->])|(? & [= _ _] & _)]. done.
  - split.
    + intros [= -> Hl]. right. apply GetOwner_loop_Fail in Hl
        as (all & -> & Ha & ->). eauto.
    + intros [(? & [= _ _])|(all & [= -> ->] & Ha & ->)]. f_equal.
      apply GetOwner_loop_Fail. eauto.
Qed.

Lemma GetCaptureByAddr_loop_Done
    (addr : string) (captures : list (option Capture)) (capture : Capture) :
  GetCaptureByAddr_loop addr captures = Done capture ↔
  ∃ before after,
    captures = (Some <$> before) ++ Some capture :: after ∧
    Forall (λ x, Capture_AdvertiseAddr x ≠ addr) before ∧
    Capture_AdvertiseAddr capture = addr.
Proof.
  induction captures as [|[x|] captures IH]; simpl.
  - split; [done|]. intros (before & after & E & _). by destruct before.
  - case_decide as Hx.
    + split.
      * intros [= <-]. exists [], captures. by repeat split.
      * intros ([|y before] & after & E & Hb & Hc); simpl in E.
        -- by injection E as <- _.
        -- injection E as <- _. apply Forall_cons in Hb as [Hy _]. congruence.
    + rewrite IH. split.
      * intros (before & after & -> & Hb & Hc).
        exists (x :: before), after. repeat split; [|done]. by constructor.
      * intros ([|y before] & after & E & Hb & Hc); simpl in E.
        -- injection E as -> _. congruence.
        -- injection E as <- ->. apply Forall_cons in Hb as [_ Hb]. eauto.
  - split; [done|]. intros ([|y before] & after & E & _); done.
Qed.

Lemma GetCaptureByAddr_loop_Fail
    (addr : string) (captures : list (option Capture)) (err : error) :
  GetCaptureByAddr_loop addr captures = Fail err ↔
  ∃ all, captures = Some <$> all ∧
         Forall (λ x, Capture_AdvertiseAddr x ≠ addr) all ∧
         err = "capture not found, addr: " +:+ addr.
Proof.
  induction captures as [|[x|] captures IH]; simpl.
  - split.
    + intros [= <-]. by exists [].
    + by intros (all & _ & _ & ->).
  - case_decide as Hx.
    + split; [done|]. intros ([|y all] & E & Ha & _); [done|].
      injection E as <- _. apply Forall_cons in Ha as [Hy _]. congruence.
    + rewrite IH. split.
      * intros (all & -> & Ha & ->). exists (x :: all).
        repeat split. by constructor.
      * intros ([|y all] & E & Ha & ->); [done|]. injection E as <- ->.
        apply Forall_cons in Ha as [_ Ha]. eauto.
  - split; [done|]. by intros ([|y all] & E & _).
Qed.

(** X16. [GetCaptureByAddr] returns the first capture whose address is the
    one asked for, provided no nil capture comes before it; when
    [GetAllCaptures] succeeds, no capture is nil and none has the address,
    it returns the error that names the address. *)
Theorem GetCaptureByAddr_first_match
    (c : CDCOpenAPIClient) (addr : string) (net net' : Net) :
  (∀ capture,
     GetCaptureByAddr c addr net = (net', Done capture) ↔
     ∃ before after,
       GetAllCaptures c net =
         (net', ((Some <$> before) ++ Some capture :: after, None)) ∧
       Forall (λ x, Capture_AdvertiseAddr x ≠ addr) before ∧
       Capture_AdvertiseAddr capture = addr) ∧
  (∀ all,
     GetAllCaptures c net = (net', (Some <$> all, None)) →
     Forall (λ x, Capture_AdvertiseAddr x ≠ addr) all →
     GetCaptureByAddr c addr net =
       (net', Fail ("capture not found, addr: " +:+ addr))).
Proof.
  unfold GetCaptureByAddr.
  destruct (GetAllCaptures c net) as [net1 [captures [err|]]].
  - split; [|by intros all [= _ _]].
    intros capture. split; [by intros [= _ ?]|].
    by intros (? & ? & [= _ _] & _).
  - split.
    + intros capture. split.
      * intros [= -> Hl]. apply GetCaptureByAddr_loop_Done in Hl
          as (before & after & -> & Hb & Hc). eauto.
      * intros (before & after & [= -> ->] & Hb & Hc). f_equal.
        apply GetCaptureByAddr_loop_Done. eauto.
    + intros all [= -> ->] Ha. f_equal.
      apply GetCaptureByAddr_loop_Fail. eauto.
Qed.

(** ** [ResignOwner] *)

(** X17. When the request to resign succeeds and the search for the new
    owner fails, [ResignOwner] does not return: it reads a field through
    the nil capture and panics. Every error it does return is the error of
    the request to resign. *)
Theorem ResignOwner_owner_lookup
    (c : CDCOpenAPIClient) (net : Net) :
  (∀ net1 body net2 err,
     tryURLs (getEndpoints c "api/v1/owner/resign") (ResignOwner_request c) net
       = (net1, (body, None)) →
     GetOwner c net1 = (net2, Fail err) →
     ResignOwner c net = (net2, Panic)) ∧
  (∀ net' err,
     ResignOwner c net = (net', Fail err) →
     ∃ body,
       tryURLs (getEndpoints c "api/v1/owner/resign") (ResignOwner_request c)
         net = (net', (body, Some err))).
Proof.
  unfold ResignOwner. split.
  - intros net1 body net2 err -> ->. done.
  - intros net' err.
    destruct (tryURLs _ _ net) as [net1 [body [e|]]].
    + intros [= -> ->]. eauto.
    + by destruct (GetOwner c net1) as [net2 [owner|e|]].
Qed.

(** ** [getCDCServerStatus] *)

(** X18. [getCDCServerStatus] asks the first address of the client and no
    other: a client made for no address makes it panic, and a client made
    for several addresses gets what a client made for the first alone gets.
    When the request fails it reports the liveness [LivenessCaptureAlive]
    beside the error. *)
Theorem getCDCServerStatus_first_address
    (cx : context_Context) (timeout : Duration) (tlsConfig : option tls_Config)
    (net : Net) :
  getCDCServerStatus (NewCDCOpenAPIClient cx [] timeout tlsConfig) net =
    (net, Panic) ∧
  (∀ addr rest,
     getCDCServerStatus
       (NewCDCOpenAPIClient cx (addr :: rest) timeout tlsConfig) net =
     getCDCServerStatus (NewCDCOpenAPIClient cx [addr] timeout tlsConfig) net) ∧
  (∀ c endpoint endpoints net' data err,
     getEndpoints c "api/v1/status" = endpoint :: endpoints →
     HTTPClient_Get (client c) (ctx c) endpoint net
       = (net', (data, Some err)) →
     getCDCServerStatus c net = (net', Done (LivenessCaptureAlive, Some err))).
Proof.
  split; [done|]. split.
  - intros addr rest. unfold getCDCServerStatus.
    by rewrite !getEndpoints_new_client.
  - intros c endpoint endpoints net' data err E G.
    unfold getCDCServerStatus. by rewrite E, G.
Qed.

End CDCFacts.

(** * The further properties at work *)

Section MoreRuns.
Import Sample Sample2.
#[local] Existing Instance payloads.
#[local] Existing Instance world.


(** The two runs: the order of [map_to_list] stops at one gap, the opposite
    order at the other. *)
Example Init_two_gaps_run :
  @Init _ (@with_range _ world_two_gaps (λ V : Type, map_to_list)) "repo" epoch
    (∅ : disk) = (∅, Fail "manifest 'mirror' not initialized porperly") ∧
  @Init _ (@with_range _ world_two_gaps backwards) "repo" epoch
    (∅ : disk) = (∅, Fail "manifest 'attic' not initialized porperly").
Proof. split; vm_compute; reflexivity. Qed.

Lemma SetVersions_any_order_witness :
  @SetVersions _ (with_range (λ V : Type, map_to_list)) stale root_and_index =
    @SetVersions _ (with_range backwards) stale root_and_index.
Proof.
  apply (SetVersions_any_order _ _ stale root_and_index
           visits_all_forwards visits_all_backwards).
  assert (∀ k m, root_and_index !! k = Some m → Version (Base m) = 1%N) as Hone.
  { intros k m. unfold root_and_index.
    intros [[_ <-]|[_ [_ <-]%lookup_singleton_Some]]%lookup_insert_Some;
      reflexivity. }
  intros k m k' m' Hk Hk' _. rewrite (Hone k m Hk). symmetry. exact (Hone k' m' Hk').
Defined.

Lemma root_and_index_agree (k : string) (m : ValidManifest) :
  root_and_index !! k = Some m → Version (Base m) = 1%N.
Proof.
  unfold root_and_index.
  intros [[_ <-]|[_ [_ <-]%lookup_singleton_Some]]%lookup_insert_Some;
    reflexivity.
Defined.

Lemma SetVersions_twice_witness :
  @SetVersions _ (with_range backwards)
     (@SetVersions _ (with_range (λ V : Type, map_to_list)) stale root_and_index)
     root_and_index =
    @SetVersions _ (with_range (λ V : Type, map_to_list)) stale root_and_index.
Proof.
  apply (SetVersions_twice _ _ stale root_and_index
           visits_all_forwards visits_all_backwards).
  intros k m k' m' Hk Hk' _.
  rewrite (root_and_index_agree k m Hk). symmetry.
  exact (root_and_index_agree k' m' Hk').
Defined.

Lemma SetVersions_order_matters_witness :
  @SetVersions _ (with_range (λ V : Type, map_to_list)) stale
     (<["a" := MIndex (NewIndex epoch)]> {["b" := MIndex index_bumped]}) ≠
  @SetVersions _ (with_range backwards) stale
     (<["a" := MIndex (NewIndex epoch)]> {["b" := MIndex index_bumped]}).
Proof.
  apply (SetVersions_order_matters stale "a" "b" (MIndex (NewIndex epoch))
           (MIndex index_bumped)).
  - discriminate.
  - reflexivity.
  - discriminate.
Defined.

Lemma SetSnapshot_last_wins_witness :
  SetSnapshot (SetSnapshot timestamp0 snapshot0).1 snapshot1 =
    SetSnapshot timestamp0 snapshot1 ∧
  ∀ f, f ≠ "snapshot.json" →
    entries (Timestamp_Meta (SetSnapshot timestamp0 snapshot0).1) !! f =
      entries (Timestamp_Meta timestamp0) !! f.
Proof.
  destruct snapshot0_bytes as (b0 & Hb0 & _).
  destruct snapshot1_bytes as (b1 & Hb1 & _).
  exact (SetSnapshot_last_wins timestamp0 snapshot0 snapshot1 b0 b1 Hb0 Hb1
           eq_refl).
Defined.

Lemma SetRole_commutes_witness :
  SetRole (SetRole keyed_root (MRoot (NewRoot epoch))) (MIndex (NewIndex epoch)) =
    SetRole (SetRole keyed_root (MIndex (NewIndex epoch))) (MRoot (NewRoot epoch)).
Proof.
  apply (SetRole_commutes keyed_root (MRoot (NewRoot epoch))
           (MIndex (NewIndex epoch))).
  discriminate.
Defined.

Lemma Init_succeeds_iff_witness :
  (∃ b, json_Marshal (Init_snapshot epoch) = inl b) ∧
  (∀ k val, types !! k = Some val → filename val ≠ "" → k ∈ core_kinds).
Proof.
  apply (Init_succeeds_iff range_ok kinds_ok epoch).
  exists bootstrapped. exact bootstrapped_run.
Defined.

Lemma range_unprintable_ok (V : Type) (m : gmap string V) :
  @range _ world_unprintable V m ≡ₚ map_to_list m.
Proof. reflexivity. Defined.

Lemma kinds_unprintable_ok : NoDup (@core_kinds _ world_unprintable).
Proof. apply (bool_decide_unpack _). vm_compute. exact I. Defined.

Lemma Init_gapped_fails :
  @Init_manifests _ world_gapped epoch =
    Fail "manifest 'mirror' not initialized porperly".
Proof. vm_compute. reflexivity. Defined.

Lemma Init_early_errors_witness :
  (∃ k, @registry_gap _ world_gapped k ∧
        "manifest 'mirror' not initialized porperly" =
          "manifest '" +:+ k +:+ "' not initialized porperly") ∧
  @Init _ world_unprintable "repo" epoch (∅ : disk) =
    (∅, Fail "json: unsupported value").
Proof.
  split.
  - destruct (@Init_early_errors _ world_gapped range_gapped_ok kinds_gapped_ok
                "repo" epoch ∅ "manifest 'mirror' not initialized porperly")
      as [Hfail _].
    destruct (Hfail Init_gapped_fails) as [Hm|Hgap]; [|exact Hgap].
    vm_compute in Hm. discriminate Hm.
  - apply (@Init_early_errors _ world_unprintable range_unprintable_ok
             kinds_unprintable_ok "repo" epoch ∅ "json: unsupported value").
    reflexivity.
Defined.

Lemma Init_never_panics_witness : (Init "repo" epoch (∅ : disk)).2 ≠ Panic.
Proof. exact (Init_never_panics range_ok kinds_ok "repo" epoch ∅). Defined.

Lemma Init_four_manifests_witness :
  dom bootstrapped = list_to_set core_kinds ∧
  size bootstrapped = 4 ∧
  ∀ k m, bootstrapped !! k = Some m →
    Ty (Base m) = k ∧
    SpecVersion (Base m) = "0.1.0" ∧
    Expires (Base m) = format (epoch + expire (types_at k)) RFC3339.
Proof.
  exact (Init_four_manifests range_ok kinds_ok epoch bootstrapped
           bootstrapped_run).
Defined.

Lemma Init_index_empty_witness :
  ∃ index, bootstrapped !! "index" = Some (MIndex index) ∧
    Owners index = Some ∅ ∧ Components index = Some ∅ ∧
    DefaultComponents index = Some [].
Proof.
  exact (Init_index_empty range_ok kinds_ok epoch bootstrapped bootstrapped_run).
Defined.

Lemma Init_forwards_run :
  @Init_manifests _ (with_range (λ V : Type, map_to_list)) epoch =
    Done bootstrapped.
Proof. vm_compute. reflexivity. Defined.

Lemma Init_any_order_witness :
  @Init_manifests _ (with_range backwards) epoch = Done bootstrapped.
Proof.
  exact (Init_any_order (λ V : Type, map_to_list) backwards epoch bootstrapped
           visits_all_forwards visits_all_backwards kinds_ok Init_forwards_run).
Defined.

(** Of two owners the first is returned. *)
Example GetOwner_run :
  @GetOwner wire transport cdc_client
    [inl [Some capture_a; Some capture_b; Some capture_c]] =
    ([], Done capture_b).
Proof. reflexivity. Qed.

(** The servers accept the request to resign and then report no owner:
    [ResignOwner] panics. *)
Example ResignOwner_run :
  @ResignOwner wire transport cdc_client [inl [Some capture_a]] = ([], Panic).
Proof. reflexivity. Qed.

(** The addresses the client calls for the status of a server. *)
Example getEndpoints_run :
  @getEndpoints wire cdc_client "api/v1/status" =
    ["http://10.0.0.1:8300/api/v1/status"; "http://10.0.0.2:8300/api/v1/status"].
Proof. reflexivity. Qed.

End MoreRuns.
